(** * generate_api_key.py: a shallow embedding and its verified properties

    The script has one function, [generate_api_key], and a main block that
    parses two options with [argparse], concatenates the prefix with a
    generated key and prints the result.  The embedding below follows the
    script line by line.  The library calls it makes ([secrets.choice], the
    constants of [string], [argparse], [print]) are modelled next to it,
    each with the CPython 3.11 function it stands for named in its comment.

    A string is a string of bytes.  Where a library function looks at the
    class of a character (the digits and blanks of [int], the digits of
    the negative number pattern of [argparse]), the model is the function
    on ASCII text, and a statement that depends on it has [Str.isascii] of
    the text among its hypotheses. *)

From Stdlib Require Import ZArith List String Ascii Bool Arith Lia.
Import ListNotations.
Local Open Scope list_scope.
Local Open Scope string_scope.

(** ** Exceptions and the process monad *)

(** The exceptions the script and the modelled library code can raise. *)
Inductive exn : Type :=
| IndexError (msg : string)
| TypeError (msg : string)
| AttributeError (msg : string)
| SystemExit (status : Z).

Inductive Res (A : Type) : Type :=
| Ok (a : A)
| Raise (e : exn).
Arguments Ok {A} a.
Arguments Raise {A} e.

(** A computation reads and updates a state and returns or raises. *)
Definition M (S A : Type) : Type := S -> Res A * S.

Definition ret {S A} (a : A) : M S A := fun st => (Ok a, st).

Definition bind {S A B} (c : M S A) (k : A -> M S B) : M S B :=
  fun st =>
    match c st with
    | (Ok a, st') => k a st'
    | (Raise e, st') => (Raise e, st')
    end.

Definition raise {S A} (e : exn) : M S A := fun st => (Raise e, st).

Declare Scope py_scope.
Delimit Scope py_scope with py.
Notation "x <- c ;; k" := (bind c (fun x => k))
  (at level 61, c at next level, right associativity) : py_scope.
Notation "c ;;; k" := (bind c (fun _ => k))
  (at level 61, right associativity) : py_scope.
Local Open Scope py_scope.

(** [for x in xs] collecting the value of the body at each item, in order:
    what a generator expression yields to its consumer. *)
Fixpoint for_each {S A B} (xs : list A) (body : A -> M S B) : M S (list B) :=
  match xs with
  | [] => ret []
  | x :: rest =>
      b <- body x ;;
      bs <- for_each rest body ;;
      ret (b :: bs)
  end.

(** ** The world outside the interpreter *)

(** What a run of the script could touch or look at: the two output
    streams, the file system, the environment variables, the network (as
    the list of messages sent) and the size of the terminal, if there is
    one (columns and lines). *)
Record World : Type := mkWorld {
  stdout : string;
  stderr : string;
  filesystem : list (string * string);
  environ : list (string * string);
  network : list string;
  terminal : option (nat * nat)
}.

(** A running process: the world and the state of the operating system's
    entropy source, of some type [G]. *)
Record Process (G : Type) : Type := mkProcess {
  world : World;
  entropy : G
}.
Arguments mkProcess {G} world entropy.
Arguments world {G} p.
Arguments entropy {G} p.

Definition write_stdout {G} (s : string) (st : Process G) : Process G :=
  mkProcess
    (mkWorld (stdout (world st) ++ s) (stderr (world st))
             (filesystem (world st)) (environ (world st)) (network (world st))
             (terminal (world st)))
    (entropy st).

Definition write_stderr {G} (s : string) (st : Process G) : Process G :=
  mkProcess
    (mkWorld (stdout (world st)) (stderr (world st) ++ s)
             (filesystem (world st)) (environ (world st)) (network (world st))
             (terminal (world st)))
    (entropy st).

(** [print(s)] for a string [s]: the text and a newline go to standard
    output. *)
Definition newline : string := String (ascii_of_nat 10) EmptyString.

Definition print {G} (s : string) : M (Process G) unit :=
  fun st => (Ok tt, write_stdout (s ++ newline) st).

(** ** The [string] module *)

Module PyString.
Definition ascii_lowercase : string := "abcdefghijklmnopqrstuvwxyz".
Definition ascii_uppercase : string := "ABCDEFGHIJKLMNOPQRSTUVWXYZ".
Definition ascii_letters : string := ascii_lowercase ++ ascii_uppercase.
Definition digits : string := "0123456789".
End PyString.

(** ** The [secrets] module *)

(** The interface of [SystemRandom]: [randbelow n g] draws an integer below
    [n] from the source in state [g].  The law is the contract of
    [_randbelow]: for a positive [n] the draw is in [range(n)]. *)
Class RandomSource (G : Type) : Type := {
  randbelow : nat -> G -> nat * G;
  randbelow_lt : forall n g, (0 < n)%nat -> (fst (randbelow n g) < n)%nat
}.

(** A source that replays a tape of raw numbers, each reduced modulo the
    bound; an exhausted tape yields 0. *)
Definition tape_randbelow (n : nat) (g : list nat) : nat * list nat :=
  match g with
  | [] => (0%nat, [])
  | x :: rest => (Nat.modulo x n, rest)
  end.

#[export] Instance TapeSource : RandomSource (list nat).
Proof.
  refine {| randbelow := tape_randbelow |}.
  intros n [|x rest] Hn; simpl; [exact Hn | apply Nat.mod_upper_bound; lia].
Defined.

Section Secrets.
Context {G : Type} `{RandomSource G}.

(** One call of [_randbelow] on the process's entropy source. *)
Definition draw (n : nat) : M (Process G) nat :=
  fun st =>
    let (i, g') := randbelow n (entropy st) in
    (Ok i, mkProcess (world st) g').

(** [seq[i]] on a string. *)
Definition getitem (seq : string) (i : nat) : M (Process G) ascii :=
  match String.get i seq with
  | Some c => ret c
  | None => raise (IndexError "string index out of range")
  end.

(** [secrets.choice(seq)], that is [SystemRandom.choice]:
    [if not len(seq): raise IndexError(...)] and then
    [return seq[self._randbelow(len(seq))]]. *)
Definition choice (seq : string) : M (Process G) ascii :=
  if Nat.eqb (String.length seq) 0
  then raise (IndexError "Cannot choose from an empty sequence")
  else i <- draw (String.length seq) ;; getitem seq i.
End Secrets.

(** ** Python values and namespaces *)

(** The objects an attribute of the parsed namespace can hold. *)
#[warnings="-register-all"]
Inductive value : Type :=
| VInt (z : Z)
| VStr (s : string)
| VList (items : list value).

(** An [argparse.Namespace]: attribute names with their values, in the
    order the attributes were first set. *)
Definition Namespace : Type := list (string * value).

Fixpoint setattr (ns : Namespace) (name : string) (v : value) : Namespace :=
  match ns with
  | [] => [(name, v)]
  | (k, old) :: rest =>
      if String.eqb k name then (k, v) :: rest
      else (k, old) :: setattr rest name v
  end.

Fixpoint lookup {A : Type} (name : string) (d : list (string * A)) : option A :=
  match d with
  | [] => None
  | (k, a) :: rest => if String.eqb k name then Some a else lookup name rest
  end.

Definition getattr {S} (ns : Namespace) (name : string) : M S value :=
  match lookup name ns with
  | Some v => ret v
  | None => raise (AttributeError name)
  end.

(** ** String operations of the interpreter *)

Module Str.
(** [s.startswith(p)] *)
Definition startswith (s p : string) : bool := String.prefix p s.

(** [c in s] *)
Fixpoint contains (c : ascii) (s : string) : bool :=
  match s with
  | EmptyString => false
  | String x rest => Ascii.eqb x c || contains c rest
  end.

(** [s.split(c, 1)] for a string that contains [c]: the text before the
    first [c] and the text after it. *)
Fixpoint split_once (c : ascii) (s : string) : string * string :=
  match s with
  | EmptyString => (EmptyString, EmptyString)
  | String x rest =>
      if Ascii.eqb x c then (EmptyString, rest)
      else let (a, b) := split_once c rest in (String x a, b)
  end.

(** [sep.join(items)] *)
Definition join (sep : string) (items : list string) : string :=
  String.concat sep items.

Definition is_digit (c : ascii) : bool :=
  (48 <=? nat_of_ascii c)%nat && (nat_of_ascii c <=? 57)%nat.

(** The whitespace [int()] skips in an ASCII string: space and the
    characters 9 to 13. *)
Definition is_space (c : ascii) : bool :=
  (nat_of_ascii c =? 32)%nat
  || ((9 <=? nat_of_ascii c)%nat && (nat_of_ascii c <=? 13)%nat).

Fixpoint lstrip (s : string) : string :=
  match s with
  | EmptyString => EmptyString
  | String c rest => if is_space c then lstrip rest else s
  end.

Fixpoint rstrip (s : string) : string :=
  match s with
  | EmptyString => EmptyString
  | String c rest =>
      match rstrip rest with
      | EmptyString => if is_space c then EmptyString else String c EmptyString
      | rest' => String c rest'
      end
  end.

Definition strip (s : string) : string := rstrip (lstrip s).

(** The longest run of digits at the start of [s], and what follows. *)
Fixpoint span_digits (s : string) : string * string :=
  match s with
  | EmptyString => (EmptyString, EmptyString)
  | String c rest =>
      if is_digit c
      then let (ds, tl) := span_digits rest in (String c ds, tl)
      else (EmptyString, s)
  end.

Definition all_digits (s : string) : bool :=
  match span_digits s with
  | (String _ _, EmptyString) => true
  | _ => false
  end.

(** [s.replace(a, b)] for single characters. *)
Fixpoint replace_char (a b : ascii) (s : string) : string :=
  match s with
  | EmptyString => EmptyString
  | String c rest =>
      String (if Ascii.eqb c a then b else c) (replace_char a b rest)
  end.

(** [s.lstrip(c)] for one character. *)
Fixpoint lstrip_char (c : ascii) (s : string) : string :=
  match s with
  | EmptyString => EmptyString
  | String x rest => if Ascii.eqb x c then lstrip_char c rest else s
  end.

(** [s.isascii()] *)
Definition isascii (s : string) : bool :=
  forallb (fun c => (nat_of_ascii c <? 128)%nat) (list_ascii_of_string s).

(** [s in text]: [s] is a substring of [text]. *)
Fixpoint in_str (s text : string) : bool :=
  String.prefix s text
  || match text with
     | EmptyString => false
     | String _ rest => in_str s rest
     end.

(** [os.path.basename(path)]: what follows the last slash. *)
Fixpoint basename (path : string) : string :=
  match path with
  | EmptyString => EmptyString
  | String c rest =>
      if contains "/" path
      then basename rest
      else path
  end.
End Str.

(** *** [int(s)] on a string

    ASCII text only: surrounding whitespace is skipped, then an optional
    sign, then decimal digits with single underscores between digits.  A
    literal of more than 4300 digits is refused (the interpreter's default
    limit).  [None] stands for [ValueError]. *)
Fixpoint int_digits (s : string) (acc : Z) (count : nat) (after_digit : bool)
  : option (Z * nat) :=
  match s with
  | EmptyString => if after_digit then Some (acc, count) else None
  | String c rest =>
      if Str.is_digit c
      then int_digits rest (10 * acc + Z.of_nat (nat_of_ascii c - 48))%Z
                      (S count) true
      else if Ascii.eqb c "_"
           then if after_digit then int_digits rest acc count false else None
           else None
  end.

Definition max_str_digits : nat := 4300.

Definition int_of_str (s : string) : option Z :=
  let t := Str.strip s in
  let (sign, body) :=
    match t with
    | String "-" rest => ((-1)%Z, rest)
    | String "+" rest => (1%Z, rest)
    | _ => (1%Z, t)
    end in
  match int_digits body 0%Z 0%nat false with
  | Some (v, n) => if (max_str_digits <? n)%nat then None else Some (sign * v)%Z
  | None => None
  end.

(** *** [repr(s)] on an ASCII string *)

Definition hex_digit (n : nat) : ascii :=
  if (n <? 10)%nat then ascii_of_nat (48 + n) else ascii_of_nat (87 + n).

Definition double_quote : ascii := ascii_of_nat 34.
Definition backslash : ascii := ascii_of_nat 92.

Definition repr_char (quote c : ascii) : string :=
  let n := nat_of_ascii c in
  if Ascii.eqb c quote || Ascii.eqb c backslash
  then String backslash (String c EmptyString)
  else if (n =? 9)%nat then String backslash "t"
  else if (n =? 10)%nat then String backslash "n"
  else if (n =? 13)%nat then String backslash "r"
  else if (n <? 32)%nat || (n =? 127)%nat
  then String backslash
         (String "x" (String (hex_digit (n / 16))
                        (String (hex_digit (n mod 16)) EmptyString)))
  else String c EmptyString.

Fixpoint repr_body (quote : ascii) (s : string) : string :=
  match s with
  | EmptyString => EmptyString
  | String c rest => repr_char quote c ++ repr_body quote rest
  end.

Definition repr (s : string) : string :=
  let quote :=
    if Str.contains "'" s && negb (Str.contains double_quote s)
    then double_quote else "'"%char in
  String quote (repr_body quote s ++ String quote EmptyString).

(** ** The [argparse] module

    A model of [ArgumentParser] for parsers built as the script builds its
    own: the automatic help action and options added by [add_argument] with
    a type and a default ([nargs] left to [None], no positional arguments,
    prefix character [-], abbreviations allowed).  Arg strings are ASCII
    text.  Function names follow [argparse.py]. *)
Module Argparse.

Inductive arg_type : Type := type_int | type_str.

Inductive Action : Type :=
| HelpAction (option_strings : list string)
| StoreAction (option_strings : list string) (dest : string)
              (type : arg_type) (default : value) (help : string).

Definition option_strings (a : Action) : list string :=
  match a with
  | HelpAction os => os
  | StoreAction os _ _ _ _ => os
  end.

Record ArgumentParser : Type := mkParser {
  prog : string;
  description : string;
  actions : list Action
}.

(** [ArgumentParser(description=...)] with [add_help=True]. *)
Definition new (prog description : string) : ArgumentParser :=
  mkParser prog description [HelpAction ["-h"; "--help"]].

(** A long option string: [len(option_string) > 1] and
    [option_string[1] in prefix_chars]. *)
Definition is_long (option_string : string) : bool :=
  match option_string with
  | String _ (String "-" _) => true
  | _ => false
  end.

(** The [dest] that [add_argument] infers: the first long option string,
    else the first option string, without its leading dashes and with
    [-] replaced by [_]. *)
Definition infer_dest (option_strings : list string) : string :=
  let chosen :=
    match filter is_long option_strings with
    | long :: _ => long
    | [] => hd EmptyString option_strings
    end in
  Str.replace_char "-" "_" (Str.lstrip_char "-" chosen).

Definition add_argument (p : ArgumentParser) (option_strings : list string)
    (type : arg_type) (default : value) (help : string) : ArgumentParser :=
  mkParser (prog p) (description p)
    (actions p ++
     [StoreAction option_strings (infer_dest option_strings) type default
                  help])%list.

(** [_option_string_actions], in insertion order. *)
Definition option_string_actions (p : ArgumentParser)
  : list (string * Action) :=
  flat_map (fun a => map (fun o => (o, a)) (option_strings a)) (actions p).

(** [_negative_number_matcher]: [^-\d+$|^-\d*\.\d+$], where [$] also
    matches just before a final newline, and [\d] is a digit of ASCII
    text. *)
Definition decimal_like (body : string) : bool :=
  match Str.span_digits body with
  | (String _ _, EmptyString) => true
  | (_, String "." frac) => Str.all_digits frac
  | _ => false
  end.

Fixpoint chomp (s : string) : string :=
  match s with
  | EmptyString => EmptyString
  | String c EmptyString =>
      if Ascii.eqb c (ascii_of_nat 10) then EmptyString else s
  | String c rest => String c (chomp rest)
  end.

Definition negative_number_like (s : string) : bool :=
  match s with
  | String "-" body => decimal_like body || decimal_like (chomp body)
  | _ => false
  end.

Definition has_negative_number_optionals (p : ArgumentParser) : bool :=
  existsb (fun oa => negative_number_like (fst oa)) (option_string_actions p).

(** An option tuple: the action (if any), the option string and the
    explicit argument (if any). *)
Definition option_tuple : Type := option Action * string * option string.

(** [_get_option_tuples] *)
Definition get_option_tuples (p : ArgumentParser) (option_string : string)
  : list option_tuple :=
  match option_string with
  | String "-" (String "-" _) =>
      let (option_prefix, explicit_arg) :=
        if Str.contains "=" option_string
        then let (a, b) := Str.split_once "=" option_string in (a, Some b)
        else (option_string, None) in
      flat_map (fun oa : string * Action =>
                  if Str.startswith (fst oa) option_prefix
                  then [(Some (snd oa), fst oa, explicit_arg)] else [])
               (option_string_actions p)
  | String "-" (String c rest) =>
      let short_option_prefix := String "-" (String c EmptyString) in
      let short_explicit_arg := rest in
      flat_map (fun oa : string * Action =>
                  if String.eqb (fst oa) short_option_prefix
                  then [(Some (snd oa), fst oa, Some short_explicit_arg)]
                  else if Str.startswith (fst oa) option_string
                       then [(Some (snd oa), fst oa, None)] else [])
               (option_string_actions p)
  | _ => []
  end.

(** How [_parse_optional] reads one arg string: a plain argument
    ([None] in the source), an option tuple, or the error of an ambiguous
    abbreviation. *)
Inductive classified : Type :=
| IsArgument
| IsOption (t : option_tuple)
| Ambiguous (message : string).

Definition explicit_option (p : ArgumentParser) (arg_string : string)
  : option option_tuple :=
  if Str.contains "=" arg_string
  then let (option_string, explicit_arg) := Str.split_once "=" arg_string in
       match lookup option_string (option_string_actions p) with
       | Some action => Some (Some action, option_string, Some explicit_arg)
       | None => None
       end
  else None.

Definition parse_optional (p : ArgumentParser) (arg_string : string)
  : classified :=
  match arg_string with
  | EmptyString => IsArgument
  | String first rest =>
      if negb (Ascii.eqb first "-") then IsArgument
      else match lookup arg_string (option_string_actions p) with
      | Some action => IsOption (Some action, arg_string, None)
      | None =>
      match rest with
      | EmptyString => IsArgument
      | _ =>
      match explicit_option p arg_string with
      | Some t => IsOption t
      | None =>
      match get_option_tuples p arg_string with
      | (_ :: _ :: _) as option_tuples =>
          Ambiguous
            ("ambiguous option: " ++ arg_string ++ " could match "
             ++ Str.join ", " (map (fun t : option_tuple => snd (fst t))
                                   option_tuples))
      | [t] => IsOption t
      | [] =>
          if negative_number_like arg_string
             && negb (has_negative_number_optionals p)
          then IsArgument
          else if Str.contains " " arg_string then IsArgument
          else IsOption (None, arg_string, None)
      end end end end
  end.

(** The arg strings with their letter of [arg_strings_pattern]: [O] with
    the option tuple, [A], or [-] for the first [--]. *)
Inductive pattern : Type :=
| PO (t : option_tuple)
| PA
| PDash.

Fixpoint classify (p : ArgumentParser) (arg_strings : list string)
  : string + list (string * pattern) :=
  match arg_strings with
  | [] => inr []
  | arg_string :: rest =>
      if String.eqb arg_string "--"
      then inr ((arg_string, PDash) :: map (fun a => (a, PA)) rest)
      else match parse_optional p arg_string with
           | Ambiguous message => inl message
           | IsArgument =>
               match classify p rest with
               | inl message => inl message
               | inr items => inr ((arg_string, PA) :: items)
               end
           | IsOption t =>
               match classify p rest with
               | inl message => inl message
               | inr items => inr ((arg_string, PO t) :: items)
               end
           end
  end.

(** An [ArgumentError]: [str(err)] is [argument <names>: <message>]. *)
Definition argument_error (action : Action) (message : string) : string :=
  "argument " ++ Str.join "/" (option_strings action) ++ ": " ++ message.

(** What [consume_optional] finds in one option arg string: an error, or
    the actions to take with their arguments; the last action may still
    need the arg strings that follow ([explicit_arg is None]). *)
Inductive plan : Type :=
| PlanError (message : string)
| PlanDone (action_tuples : list (Action * list string))
| PlanNext (action_tuples : list (Action * list string)) (last : Action).

(** The [while True] loop of [consume_optional] for an option with an
    explicit argument. *)
Fixpoint with_explicit_arg (p : ArgumentParser) (action : Action)
    (option_string : string) (explicit_arg : string)
    (action_tuples : list (Action * list string)) : plan :=
  match action with
  | StoreAction _ _ _ _ _ =>
      (* arg_count == 1 *)
      PlanDone (action_tuples ++ [(action, [explicit_arg])])%list
  | HelpAction _ =>
      (* arg_count == 0 *)
      match explicit_arg with
      | String c tail =>
          if negb (is_long option_string)
          then
            let option_string' := String "-" (String c EmptyString) in
            match lookup option_string' (option_string_actions p) with
            | Some action' =>
                let action_tuples' := (action_tuples ++ [(action, [])])%list in
                match tail with
                | EmptyString => PlanNext action_tuples' action'
                | _ => with_explicit_arg p action' option_string' tail
                         action_tuples'
                end
            | None =>
                PlanError (argument_error action
                  ("ignored explicit argument " ++ repr explicit_arg))
            end
          else PlanError (argument_error action
                 ("ignored explicit argument " ++ repr explicit_arg))
      | EmptyString =>
          PlanError (argument_error action
            ("ignored explicit argument " ++ repr explicit_arg))
      end
  end.

Definition plan_optional (p : ArgumentParser) (action : Action)
    (option_string : string) (explicit_arg : option string) : plan :=
  match explicit_arg with
  | Some e => with_explicit_arg p action option_string e []
  | None => PlanNext [] action
  end.

(** [_get_value]: the conversion by the action's type. *)
Definition get_value (action : Action) (type : arg_type)
    (arg_string : string) : string + value :=
  match type with
  | type_str => inr (VStr arg_string)
  | type_int =>
      match int_of_str arg_string with
      | Some n => inr (VInt n)
      | None =>
          inl (argument_error action
                 ("invalid int value: " ++ repr arg_string))
      end
  end.

(** [arg_strings.remove('--')]: the first [--] is dropped. *)
Fixpoint remove_dashes (arg_strings : list string) : list string :=
  match arg_strings with
  | [] => []
  | a :: rest => if String.eqb a "--" then rest else a :: remove_dashes rest
  end.

Fixpoint get_value_list (action : Action) (type : arg_type)
    (arg_strings : list string) : string + list value :=
  match arg_strings with
  | [] => inr []
  | a :: rest =>
      match get_value action type a with
      | inl message => inl message
      | inr v =>
          match get_value_list action type rest with
          | inl message => inl message
          | inr vs => inr (v :: vs)
          end
      end
  end.

(** [_get_values] for an action with [nargs=None]: one arg string gives
    one converted value, anything else a list of converted values. *)
Definition get_values (action : Action) (type : arg_type)
    (arg_strings : list string) : string + value :=
  match remove_dashes arg_strings with
  | [arg_string] => get_value action type arg_string
  | others =>
      match get_value_list action type others with
      | inl message => inl message
      | inr vs => inr (VList vs)
      end
  end.

(** Where parsing stands: the namespace, the [dest]s of the actions seen
    and the arg strings no action took. *)
Record progress : Type := mkProgress {
  namespace : Namespace;
  seen : list string;
  extras : list string
}.

Inductive outcome : Type :=
| Parsed (ns : Namespace)
| HelpRequested
| UsageError (message : string).

Inductive step (A : Type) : Type :=
| Continue (a : A)
| Stop (o : outcome).
Arguments Continue {A} a.
Arguments Stop {A} o.

(** [take_action] on each action tuple in turn: the help action prints
    the help and exits, a store action converts its arguments and sets
    its [dest]. *)
Fixpoint take_actions (action_tuples : list (Action * list string))
    (pr : progress) : step progress :=
  match action_tuples with
  | [] => Continue pr
  | (action, arg_strings) :: rest =>
      match action with
      | HelpAction _ => Stop HelpRequested
      | StoreAction _ dest type _ _ =>
          match get_values action type arg_strings with
          | inl message => Stop (UsageError message)
          | inr v =>
              take_actions rest
                (mkProgress (setattr (namespace pr) dest v)
                            (dest :: seen pr) (extras pr))
          end
      end
  end.

(** The loop of [_parse_known_args] over the classified arg strings.
    Without positional arguments [consume_positionals] takes nothing, so
    an arg string that is no option and follows no option that takes it
    goes to [extras]. *)
Fixpoint consume (p : ArgumentParser) (items : list (string * pattern))
    (pr : progress) : step progress :=
  match items with
  | [] => Continue pr
  | (arg_string, PA) :: rest | (arg_string, PDash) :: rest =>
      consume p rest
        (mkProgress (namespace pr) (seen pr) (extras pr ++ [arg_string])%list)
  | (arg_string, PO (None, _, _)) :: rest =>
      consume p rest
        (mkProgress (namespace pr) (seen pr) (extras pr ++ [arg_string])%list)
  | (arg_string, PO (Some action, option_string, explicit_arg)) :: rest =>
      match plan_optional p action option_string explicit_arg with
      | PlanError message => Stop (UsageError message)
      | PlanDone action_tuples =>
          match take_actions action_tuples pr with
          | Continue pr' => consume p rest pr'
          | Stop o => Stop o
          end
      | PlanNext action_tuples (HelpAction os) =>
          match take_actions (action_tuples ++ [(HelpAction os, [])])%list
                             pr with
          | Continue pr' => consume p rest pr'
          | Stop o => Stop o
          end
      | PlanNext action_tuples (StoreAction os d t df h) =>
          match rest with
          | (next, PA) :: rest' =>
              match take_actions
                      (action_tuples
                       ++ [(StoreAction os d t df h, [next])])%list
                      pr with
              | Continue pr' => consume p rest' pr'
              | Stop o => Stop o
              end
          | _ =>
              Stop (UsageError (argument_error (StoreAction os d t df h)
                                  "expected one argument"))
          end
      end
  end.

(** The defaults [parse_known_args] puts in the namespace first. *)
Fixpoint defaults (acts : list Action) (ns : Namespace) : Namespace :=
  match acts with
  | [] => ns
  | HelpAction _ :: rest => defaults rest ns
  | StoreAction _ dest _ default _ :: rest =>
      defaults rest
        (match lookup dest ns with
         | Some _ => ns
         | None => setattr ns dest default
         end)
  end.

(** The end of [_parse_known_args]: the string default of an action that
    was not seen is converted by the action's type. *)
Fixpoint convert_defaults (acts : list Action) (pr : progress)
  : step progress :=
  match acts with
  | [] => Continue pr
  | HelpAction _ :: rest => convert_defaults rest pr
  | StoreAction os dest type default h :: rest =>
      match default with
      | VStr s =>
          if existsb (String.eqb dest) (seen pr)
          then convert_defaults rest pr
          else match get_value (StoreAction os dest type default h) type s with
               | inl message => Stop (UsageError message)
               | inr v =>
                   convert_defaults rest
                     (mkProgress (setattr (namespace pr) dest v)
                                 (seen pr) (extras pr))
               end
      | _ => convert_defaults rest pr
      end
  end.

(** [parse_args] as a function of the arg strings: the namespace, or the
    help request, or the message handed to [error]. *)
Definition parse (p : ArgumentParser) (arg_strings : list string) : outcome :=
  match classify p arg_strings with
  | inl message => UsageError message
  | inr items =>
      match consume p items (mkProgress (defaults (actions p) []) [] []) with
      | Stop o => o
      | Continue pr =>
          match convert_defaults (actions p) pr with
          | Stop o => o
          | Continue pr' =>
              match extras pr' with
              | [] => Parsed (namespace pr')
              | argv =>
                  UsageError ("unrecognized arguments: " ++ Str.join " " argv)
              end
          end
      end
  end.

(** [HelpFormatter]: the usage and the help of a parser as text.  The
    layout depends on more than the parser (lines are wrapped to the width
    of the terminal, taken from [COLUMNS] or from the terminal itself), so
    the two texts are functions of the parser and of the world, and nothing
    else is known about them. *)
Class HelpFormatter : Type := {
  format_usage : ArgumentParser -> World -> string;
  format_help : ArgumentParser -> World -> string
}.

(** [error(message)]: usage and message on standard error, exit status 2. *)
Definition error {G} {F : HelpFormatter} {A} (p : ArgumentParser)
    (message : string) : M (Process G) A :=
  fun st =>
    (Raise (SystemExit 2),
     write_stderr (prog p ++ ": error: " ++ message ++ newline)
       (write_stderr (format_usage p (world st)) st)).

(** The help action: help on standard output, exit status 0. *)
Definition print_help_and_exit {G} {F : HelpFormatter} {A}
    (p : ArgumentParser) : M (Process G) A :=
  fun st =>
    (Raise (SystemExit 0), write_stdout (format_help p (world st)) st).

(** [parse_args(args)] *)
Definition parse_args {G} {F : HelpFormatter} (p : ArgumentParser)
    (arg_strings : list string) : M (Process G) Namespace :=
  match parse p arg_strings with
  | Parsed ns => ret ns
  | HelpRequested => print_help_and_exit p
  | UsageError message => error p message
  end.

(** *** Predicates on command lines and on their classified arg strings *)








End Argparse.

(** ** The script *)

(** [range(stop)]: the integers from 0 below [stop], none when
    [stop <= 0]; a [stop] that is no integer is a [TypeError]. *)
Definition range {S} (stop : value) : M S (list Z) :=
  match stop with
  | VInt n => ret (map Z.of_nat (seq 0 (Z.to_nat n)))
  | VStr _ =>
      raise (TypeError "'str' object cannot be interpreted as an integer")
  | VList _ =>
      raise (TypeError "'list' object cannot be interpreted as an integer")
  end.

(** [''.join(cs)] on one-character strings. *)
Definition join (cs : list ascii) : string := string_of_list_ascii cs.

(** [left + right] where [right] is a string. *)
Definition add_str {S} (left : value) (right : string) : M S string :=
  match left with
  | VStr s => ret (s ++ right)
  | VInt _ =>
      raise (TypeError "unsupported operand type(s) for +: 'int' and 'str'")
  | VList _ =>
      raise (TypeError ("can only concatenate list (not "
                        ++ String double_quote "str"
                        ++ String double_quote ") to list"))
  end.

(** Line 7: the docstring of [generate_api_key]. *)
Definition generate_api_key_doc : string :=
  "Generate a secure API key of specified length.".

Section Script.
Context {G : Type} `{RandomSource G} {F : Argparse.HelpFormatter}.

(** Lines 6-10.  The default [length=32] of the signature is not used by
    the script: its one call, at line 21, passes [args.length]. *)
Definition generate_api_key (length : value) : M (Process G) string :=
  let alphabet := PyString.ascii_letters ++ PyString.digits in
  indices <- range length ;;
  cs <- for_each indices (fun _ => choice alphabet) ;;
  let api_key := join cs in
  ret api_key.

(** Lines 13-17. *)
Definition parser (prog : string) : Argparse.ArgumentParser :=
  let parser := Argparse.new prog "Generate a secure API key" in
  let parser :=
    Argparse.add_argument parser ["-l"; "--length"] Argparse.type_int
      (VInt 32) "Length of the API key (default: 32)" in
  Argparse.add_argument parser ["-p"; "--prefix"] Argparse.type_str
    (VStr "") "Optional prefix for the API key".

(** Lines 21-22, on the parsed namespace [args]. *)
Definition run (args : Namespace) : M (Process G) unit :=
  prefix <- getattr args "prefix" ;;
  length <- getattr args "length" ;;
  key <- generate_api_key length ;;
  api_key <- add_str prefix key ;;
  print api_key.

(** Lines 12-22: the main block, for [sys.argv = argv]. *)
Definition main (argv : list string) : M (Process G) unit :=
  let parser := parser (Str.basename (hd EmptyString argv)) in
  args <- Argparse.parse_args parser (tl argv) ;;
  run args.

(** The text the interpreter prints for an exception nobody caught (the
    lines of the stack frames are left out). *)
Definition traceback (e : exn) : string :=
  "Traceback (most recent call last):" ++ newline ++
  match e with
  | IndexError msg => "IndexError: " ++ msg
  | TypeError msg => "TypeError: " ++ msg
  | AttributeError msg => "AttributeError: " ++ msg
  | SystemExit _ => EmptyString
  end ++ newline.

(** The end of the interpreter: the exit status of the process.  A
    [SystemExit] gives its status; any other exception is reported on
    standard error and the status is 1.  Standard output is taken to accept
    what is written to it: a write or a final flush that fails (a full
    device, a closed pipe) is outside the model. *)
Definition finish (r : Res unit * Process G) : Z * Process G :=
  match r with
  | (Ok _, st) => (0%Z, st)
  | (Raise (SystemExit status), st) => (status, st)
  | (Raise e, st) => (1%Z, write_stderr (traceback e) st)
  end.

(** [python generate_api_key.py ...]: the script run as a program. *)
Definition python (argv : list string) (st : Process G) : Z * Process G :=
  finish (main argv st).
End Script.

(** The value of the local variable [alphabet] of [generate_api_key]. *)
Definition alphabet : string := PyString.ascii_letters ++ PyString.digits.

(** The [Options] of a run: the namespace a successful parse returns. *)
Definition options (length : Z) (prefix : string) : Namespace :=
  [("length", VInt length); ("prefix", VStr prefix)].

(** The character classes of the specification's alphanumeric alphabet. *)
Definition is_upper (c : ascii) : bool :=
  (65 <=? nat_of_ascii c)%nat && (nat_of_ascii c <=? 90)%nat.
Definition is_lower (c : ascii) : bool :=
  (97 <=? nat_of_ascii c)%nat && (nat_of_ascii c <=? 122)%nat.
Definition alphanumeric (c : ascii) : bool :=
  is_upper c || is_lower c || Str.is_digit c.

(** For closed examples: the two texts [argparse] prints for the parser
    of the script when it is run as [generate_api_key.py] on a terminal of
    80 columns, and the formatter that answers with them. *)
Definition example_usage : string :=
  "usage: generate_api_key.py [-h] [-l LENGTH] [-p PREFIX]" ++ newline.

Definition example_help : string :=
  example_usage ++ newline
  ++ "Generate a secure API key" ++ newline ++ newline
  ++ "options:" ++ newline
  ++ "  -h, --help            show this help message and exit" ++ newline
  ++ "  -l LENGTH, --length LENGTH" ++ newline
  ++ "                        Length of the API key (default: 32)" ++ newline
  ++ "  -p PREFIX, --prefix PREFIX" ++ newline
  ++ "                        Optional prefix for the API key" ++ newline.

Definition example_formatter : Argparse.HelpFormatter :=
  {| Argparse.format_usage := fun _ _ => example_usage;
     Argparse.format_help := fun _ _ => example_help |}.

(** The texts the script holds for its reader: the docstring of line 7,
    the description of line 13 and the help of each action (lines 15 and
    17, and the help line [argparse] gives its own help action). *)
Definition action_help (a : Argparse.Action) : string :=
  match a with
  | Argparse.HelpAction _ => "show this help message and exit"
  | Argparse.StoreAction _ _ _ _ h => h
  end.

Definition documentation (prog : string) : list string :=
  generate_api_key_doc
  :: Argparse.description (parser prog)
  :: map action_help (Argparse.actions (parser prog)).

(** A text says something about negative lengths when one of these words
    is in it. *)
Definition negative_length_words : list string :=
  ["negative"; "non-negative"; "positive"; "zero"; "clamp"; "reject";
   "invalid"; "at least"; "minimum"; "less than"; "below"; "< 0"; ">= 0"].

Definition documents_negative_length (text : string) : bool :=
  existsb (fun word => Str.in_str word text) negative_length_words.

(** A world with nothing written yet, and a process on a tape of draws. *)
Definition empty_world : World :=
  mkWorld EmptyString EmptyString [] [] [] (Some (80, 24)%nat).
Definition on_tape (tape : list nat) : Process (list nat) :=
  mkProcess empty_world tape.

(** ** Predicates used in the statements *)

(** No character occurs twice. *)
Fixpoint nodupb (cs : list ascii) : bool :=
  match cs with
  | [] => true
  | c :: rest => negb (existsb (Ascii.eqb c) rest) && nodupb rest
  end.

(** The two ways the specification allows a negative length to be
    handled, as properties of one run of lines 21-22. *)
Section NegativeLength.
Context {G : Type} `{RandomSource G}.

(** Rejected: a non-zero exit status, a message on standard error and
    nothing on standard output. *)
Definition rejects (length : Z) (prefix : string) (st : Process G) : Prop :=
  let (status, st') := finish (run (options length prefix) st) in
  status <> 0%Z
  /\ stderr (world st') <> stderr (world st)
  /\ stdout (world st') = stdout (world st).

(** Clamped to zero: the random segment is empty and the run is the run
    for length 0. *)
Definition clamps (length : Z) (prefix : string) (st : Process G) : Prop :=
  (exists st', generate_api_key (VInt length) st = (Ok EmptyString, st'))
  /\ finish (run (options length prefix) st)
     = finish (run (options 0 prefix) st).
End NegativeLength.

(** [n] successive calls of [_randbelow] with the same bound: the numbers
    drawn, in order, and the entropy state they leave. *)
Section Draws.
Context {G : Type} `{RandomSource G}.

Fixpoint draws (bound n : nat) (g : G) : list nat * G :=
  match n with
  | O => ([], g)
  | S k =>
      let (i, g1) := randbelow bound g in
      let (rest, g2) := draws bound k g1 in
      (i :: rest, g2)
  end.
End Draws.

(** How often a character occurs in a string. *)
Fixpoint count_char (c : ascii) (s : string) : nat :=
  match s with
  | EmptyString => 0
  | String x rest => (if Ascii.eqb x c then 1 else 0) + count_char c rest
  end.

(** The two actions lines 14-17 add to the parser. *)
Definition length_action : Argparse.Action :=
  Argparse.StoreAction ["-l"; "--length"] "length" Argparse.type_int
    (VInt 32) "Length of the API key (default: 32)".

Definition prefix_action : Argparse.Action :=
  Argparse.StoreAction ["-p"; "--prefix"] "prefix" Argparse.type_str
    (VStr EmptyString) "Optional prefix for the API key".

(** The integer a string of decimal digits denotes. *)
Definition decimal_value (digits : string) : Z :=
  fold_left (fun acc c => (10 * acc + Z.of_nat (nat_of_ascii c - 48))%Z)
            (list_ascii_of_string digits) 0%Z.

(** The run for [sys.argv = path :: arg_strings] ends as an error of the
    parser: exit status 2, nothing on standard output, the usage and one
    line with the message on standard error, and the entropy source not
    read (no key is generated). *)
Section UsageErrorDef.
Context {G : Type} `{RandomSource G} {F : Argparse.HelpFormatter}.

Definition ends_in_usage_error (path : string) (arg_strings : list string)
    (st : Process G) : Prop :=
  exists message,
    fst (python (path :: arg_strings) st) = 2%Z
    /\ stdout (world (snd (python (path :: arg_strings) st)))
       = stdout (world st)
    /\ stderr (world (snd (python (path :: arg_strings) st)))
       = stderr (world st)
         ++ Argparse.format_usage (parser (Str.basename path)) (world st)
         ++ Str.basename path ++ ": error: " ++ message ++ newline
    /\ entropy (snd (python (path :: arg_strings) st)) = entropy st.
End UsageErrorDef.

(** * Properties *)

(** ** Strings *)

Lemma get_Some_In (s : string) :
  forall i c, String.get i s = Some c -> In c (list_ascii_of_string s).
Proof.
  induction s as [|x s IH]; intros i c Hget; simpl in *.
  - discriminate.
  - destruct i as [|i].
    + left. congruence.
    + right. eapply IH. eassumption.
Qed.

Lemma get_in_range (s : string) :
  forall i, (i < String.length s)%nat -> exists c, String.get i s = Some c.
Proof.
  induction s as [|x s IH]; intros i Hi; simpl in *.
  - lia.
  - destruct i as [|i].
    + eauto.
    + apply IH. lia.
Qed.

Lemma length_string_of_list (cs : list ascii) :
  String.length (string_of_list_ascii cs) = List.length cs.
Proof. induction cs; simpl; congruence. Qed.

Lemma append_assoc (a b c : string) : (a ++ b) ++ c = a ++ (b ++ c).
Proof. induction a; simpl; congruence. Qed.

Lemma contains_In (c : ascii) (s : string) :
  Str.contains c s = true <-> In c (list_ascii_of_string s).
Proof.
  induction s as [|x s IH]; simpl.
  - split; [discriminate | tauto].
  - rewrite orb_true_iff, Ascii.eqb_eq, IH. tauto.
Qed.

Lemma contains_alphabet (c : ascii) :
  Str.contains c alphabet = alphanumeric c.
Proof.
  destruct c as [[] [] [] [] [] [] [] []]; vm_compute; reflexivity.
Qed.

Lemma In_alphabet (c : ascii) :
  In c (list_ascii_of_string alphabet) <-> alphanumeric c = true.
Proof. rewrite <- contains_In, contains_alphabet. tauto. Qed.

(** ** The generated key *)

Section Generate.
Context {G : Type} `{RandomSource G}.

Lemma process_eta (st : Process G) : mkProcess (world st) (entropy st) = st.
Proof. destruct st; reflexivity. Qed.

Lemma choice_returns (seq : string) (st : Process G) :
  seq <> EmptyString ->
  exists c g',
    choice seq st = (Ok c, mkProcess (world st) g')
    /\ In c (list_ascii_of_string seq).
Proof.
  intros Hseq. unfold choice.
  destruct (Nat.eqb_spec (String.length seq) 0) as [E|E].
  - destruct seq; [congruence | discriminate].
  - unfold bind, draw.
    pose proof (randbelow_lt (String.length seq) (entropy st)) as Hlt.
    destruct (randbelow (String.length seq) (entropy st)) as [i g'].
    simpl in Hlt.
    destruct (get_in_range seq i) as [c Hc]; [lia|].
    exists c, g'. unfold getitem. rewrite Hc. split.
    + reflexivity.
    + eapply get_Some_In; eassumption.
Qed.

Lemma for_each_choice {A} (seq : string) (xs : list A) :
  seq <> EmptyString ->
  forall st : Process G,
  exists cs g',
    for_each xs (fun _ => choice seq) st = (Ok cs, mkProcess (world st) g')
    /\ List.length cs = List.length xs
    /\ Forall (fun c => In c (list_ascii_of_string seq)) cs.
Proof.
  intros Hseq. induction xs as [|x xs IH]; intros st.
  - exists [], (entropy st). simpl. unfold ret.
    rewrite process_eta. auto.
  - destruct (choice_returns seq st Hseq) as (c & g1 & Hc & Hin).
    destruct (IH (mkProcess (world st) g1)) as (cs & g2 & Hcs & Hlen & Hall).
    exists (c :: cs), g2. simpl. unfold bind at 1. rewrite Hc.
    unfold bind at 1. rewrite Hcs. simpl. unfold ret.
    split; [reflexivity|]. split; [congruence|]. constructor; assumption.
Qed.

Lemma range_length (n : Z) (st : Process G) :
  exists indices,
    range (VInt n) st = (Ok indices, st)
    /\ List.length indices = Z.to_nat n.
Proof.
  eexists. split; [reflexivity|].
  rewrite length_map, length_seq. reflexivity.
Qed.

Lemma alphabet_not_empty : alphabet <> EmptyString.
Proof. discriminate. Qed.

(** A call with an integer returns: the key has [max(0, n)] characters,
    all from the alphabet, and only the entropy source has moved. *)
Lemma generate_returns (n : Z) (st : Process G) :
  exists key g',
    generate_api_key (VInt n) st = (Ok key, mkProcess (world st) g')
    /\ String.length key = Z.to_nat n
    /\ Forall (fun c => In c (list_ascii_of_string alphabet))
              (list_ascii_of_string key).
Proof.
  destruct (range_length n st) as (indices & Hrange & Hlen).
  destruct (for_each_choice alphabet indices alphabet_not_empty st)
    as (cs & g' & Hcs & Hcslen & Hall).
  exists (join cs), g'. unfold generate_api_key.
  unfold bind at 1. rewrite Hrange.
  unfold bind at 1. fold alphabet. rewrite Hcs.
  unfold ret, join. split; [reflexivity|]. split.
  - rewrite length_string_of_list. congruence.
  - rewrite list_ascii_of_string_of_list_ascii. exact Hall.
Qed.

(** With nothing to iterate over no entropy is read. *)
Lemma generate_nonpositive (n : Z) (st : Process G) :
  (n <= 0)%Z -> generate_api_key (VInt n) st = (Ok EmptyString, st).
Proof.
  intros Hn. unfold generate_api_key, bind, range, ret.
  replace (Z.to_nat n) with 0%nat by lia. reflexivity.
Qed.

(** Lines 21-22 on typed options: the key is generated, then one line is
    printed. *)
Lemma run_options (length : Z) (prefix : string) (st : Process G) :
  forall key st',
    generate_api_key (VInt length) st = (Ok key, st') ->
    run (options length prefix) st
    = (Ok tt, write_stdout (prefix ++ key ++ newline) st').
Proof.
  intros key st' Hgen. unfold run, options, getattr. simpl.
  unfold bind at 1. unfold ret at 1.
  unfold bind at 1. unfold ret at 1.
  unfold bind at 1. rewrite Hgen.
  unfold bind, add_str, ret, print.
  rewrite append_assoc. reflexivity.
Qed.
End Generate.

(** ** The alphabet *)


Lemma nodupb_NoDup (cs : list ascii) : nodupb cs = true -> NoDup cs.
Proof.
  induction cs as [|c cs IH]; simpl; intros Hb.
  - constructor.
  - apply andb_true_iff in Hb. destruct Hb as [Hc Hrest].
    constructor; [|auto].
    intros Hin. apply negb_true_iff in Hc.
    assert (existsb (Ascii.eqb c) cs = true) as Hex.
    { apply existsb_exists. exists c.
      split; [assumption | apply Ascii.eqb_refl]. }
    congruence.
Qed.

(** A process whose entropy source is a tape holding the single draw [i]
    returns the [i]-th character of the alphabet. *)
Lemma generate_one_from_tape (i : nat) :
  (i < 62)%nat ->
  exists c,
    String.get i alphabet = Some c
    /\ generate_api_key (VInt 1) (on_tape [i])
       = (Ok (String c EmptyString), on_tape []).
Proof.
  intros Hi.
  do 62 (destruct i as [|i]; [eexists; split; reflexivity|]).
  lia.
Qed.

(** C8: the alphabet of [generate_api_key] is one constant string of 62
    distinct characters: the 26 ASCII lowercase letters, the 26 ASCII
    uppercase letters and the 10 digits, and nothing else.  It does not
    depend on the argument or on the state of the process: whatever a call
    returns is made of its characters, and each of them is returned by some
    call. *)
Theorem alphabet_constant :
  alphabet = "abcdefghijklmnopqrstuvwxyzABCDEFGHIJKLMNOPQRSTUVWXYZ0123456789"
  /\ String.length alphabet = 62%nat
  /\ NoDup (list_ascii_of_string alphabet)
  /\ (forall c, In c (list_ascii_of_string alphabet) <-> alphanumeric c = true)
  /\ List.length (filter is_upper (list_ascii_of_string alphabet)) = 26%nat
  /\ List.length (filter is_lower (list_ascii_of_string alphabet)) = 26%nat
  /\ List.length (filter Str.is_digit (list_ascii_of_string alphabet)) = 10%nat
  /\ (forall (G : Type) (R : RandomSource G) (length : value)
             (st st' : Process G) (key : string),
         generate_api_key length st = (Ok key, st') ->
         Forall (fun c => In c (list_ascii_of_string alphabet))
                (list_ascii_of_string key))
  /\ (forall c, In c (list_ascii_of_string alphabet) ->
        exists tape,
          generate_api_key (VInt 1) (on_tape tape)
          = (Ok (String c EmptyString), on_tape [])).
Proof.
  split; [reflexivity|].
  split; [reflexivity|].
  split; [apply nodupb_NoDup; vm_compute; reflexivity|].
  split; [apply In_alphabet|].
  split; [reflexivity|].
  split; [reflexivity|].
  split; [reflexivity|].
  split.
  - intros G R length st st' key Hgen.
    destruct length as [n|s|items].
    + destruct (generate_returns n st) as (key' & g' & Hgen' & _ & Hall).
      congruence.
    + discriminate.
    + discriminate.
  - intros c Hin.
    apply In_nth_error in Hin. destruct Hin as [i Hi].
    assert (i < 62)%nat as Hlt.
    { change 62%nat with (List.length (list_ascii_of_string alphabet)).
      apply nth_error_Some. congruence. }
    destruct (generate_one_from_tape i Hlt) as (c' & Hget & Hgen).
    exists [i]. rewrite Hgen.
    assert (c' = c) as ->; [|reflexivity].
    clear Hgen. revert Hget Hi.
    do 62 (destruct i as [|i]; [simpl; congruence|]).
    lia.
Qed.

(** ** Claims about [generate_api_key] and the printed line *)

(** C1: for a length [>= 0], [generate_api_key(length)] returns a string
    of exactly [length] characters, each of them in the 62-character
    alphabet, that is an ASCII uppercase letter, lowercase letter or
    digit. *)
Theorem generate_length_and_alphabet
    {G : Type} `{RandomSource G} (length : Z) (st : Process G) :
  (0 <= length)%Z ->
  exists key st',
    generate_api_key (VInt length) st = (Ok key, st')
    /\ Z.of_nat (String.length key) = length
    /\ Forall (fun c => In c (list_ascii_of_string alphabet)
                        /\ alphanumeric c = true)
              (list_ascii_of_string key)
    /\ String.length alphabet = 62%nat.
Proof.
  intros Hlen.
  destruct (generate_returns length st) as (key & g' & Hgen & Hkey & Hall).
  exists key, (mkProcess (world st) g').
  split; [exact Hgen|]. split; [lia|]. split; [|reflexivity].
  eapply Forall_impl; [|exact Hall].
  intros c Hc. split; [exact Hc | apply In_alphabet; exact Hc].
Qed.

Lemma generate_length_and_alphabet_witness :
  (0 <= 3)%Z
  /\ exists key st',
       generate_api_key (VInt 3) (on_tape [0; 27; 61]%nat) = (Ok key, st')
       /\ Z.of_nat (String.length key) = 3%Z
       /\ Forall (fun c => In c (list_ascii_of_string alphabet)
                           /\ alphanumeric c = true)
                 (list_ascii_of_string key)
       /\ String.length alphabet = 62%nat.
Proof.
  split; [lia|].
  apply (generate_length_and_alphabet 3 (on_tape [0; 27; 61]%nat)). lia.
Defined.

Example generate_three :
  generate_api_key (VInt 3) (on_tape [0; 27; 61; 5]%nat)
  = (Ok "aB9", on_tape [5%nat]).
Proof. reflexivity. Qed.

(** C2: for options with a length [>= 0], lines 21-22 write the prefix,
    unchanged, then the generated key, then one newline to standard output,
    and nothing else: standard error is left as it was and the run ends
    normally. *)
Theorem run_prints_prefix_and_key
    {G : Type} `{RandomSource G} (length : Z) (prefix : string)
    (st : Process G) :
  (0 <= length)%Z ->
  exists key st',
    generate_api_key (VInt length) st = (Ok key, st')
    /\ Z.of_nat (String.length key) = length
    /\ run (options length prefix) st
       = (Ok tt, write_stdout (prefix ++ key ++ newline) st')
    /\ stdout (world (snd (run (options length prefix) st)))
       = stdout (world st) ++ prefix ++ key ++ newline
    /\ stderr (world (snd (run (options length prefix) st)))
       = stderr (world st)
    /\ fst (finish (run (options length prefix) st)) = 0%Z.
Proof.
  intros Hlen.
  destruct (generate_returns length st) as (key & g' & Hgen & Hkey & _).
  exists key, (mkProcess (world st) g').
  rewrite (run_options length prefix st key _ Hgen).
  repeat split; try reflexivity; try assumption. lia.
Qed.

Lemma run_prints_prefix_and_key_witness :
  (0 <= 8)%Z
  /\ exists key st',
       generate_api_key (VInt 8) (on_tape [1; 2; 3; 4; 5; 6; 7; 8]%nat)
       = (Ok key, st')
       /\ Z.of_nat (String.length key) = 8%Z
       /\ run (options 8 "sk_") (on_tape [1; 2; 3; 4; 5; 6; 7; 8]%nat)
          = (Ok tt, write_stdout ("sk_" ++ key ++ newline) st')
       /\ stdout (world (snd (run (options 8 "sk_")
                                  (on_tape [1; 2; 3; 4; 5; 6; 7; 8]%nat))))
          = stdout (world (on_tape [1; 2; 3; 4; 5; 6; 7; 8]%nat))
            ++ "sk_" ++ key ++ newline
       /\ stderr (world (snd (run (options 8 "sk_")
                                  (on_tape [1; 2; 3; 4; 5; 6; 7; 8]%nat))))
          = stderr (world (on_tape [1; 2; 3; 4; 5; 6; 7; 8]%nat))
       /\ fst (finish (run (options 8 "sk_")
                           (on_tape [1; 2; 3; 4; 5; 6; 7; 8]%nat))) = 0%Z.
Proof.
  split; [lia|].
  apply (run_prints_prefix_and_key 8 "sk_"
           (on_tape [1; 2; 3; 4; 5; 6; 7; 8]%nat)).
  lia.
Defined.

Example run_sk_8 :
  stdout (world (snd (run (options 8 "sk_")
                          (on_tape [1; 2; 3; 4; 5; 6; 7; 8]%nat))))
  = "sk_bcdefghi" ++ newline.
Proof. reflexivity. Qed.



(** C4: every negative length is handled in one and the same way: the
    length is clamped to zero (the random segment is empty and the run is
    the run for length 0), and no negative length is rejected. *)
Theorem negative_length_clamps
    {G : Type} `{RandomSource G} (length : Z) (prefix : string)
    (st : Process G) :
  (length < 0)%Z ->
  clamps length prefix st /\ ~ rejects length prefix st.
Proof.
  intros Hneg.
  assert (generate_api_key (VInt length) st = (Ok EmptyString, st)) as Hgen.
  { apply generate_nonpositive. lia. }
  assert (generate_api_key (VInt 0) st = (Ok EmptyString, st)) as Hgen0.
  { apply generate_nonpositive. lia. }
  split.
  - split; [eauto|].
    rewrite (run_options length prefix st EmptyString st Hgen).
    rewrite (run_options 0 prefix st EmptyString st Hgen0).
    reflexivity.
  - unfold rejects.
    rewrite (run_options length prefix st EmptyString st Hgen).
    simpl. intros (Hstatus & _). apply Hstatus. reflexivity.
Qed.

Lemma negative_length_clamps_witness :
  (-5 < 0)%Z
  /\ clamps (-5) "sk_" (on_tape [7%nat])
  /\ ~ rejects (-5) "sk_" (on_tape [7%nat]).
Proof.
  split; [lia|].
  apply (negative_length_clamps (-5) "sk_" (on_tape [7%nat])). lia.
Defined.

(** The clamping is not documented.  The texts the script holds for its
    reader are the docstring, the description of the parser and the help
    of the three options; none of them has a word about a negative
    length, and the run for the length -5 ends as a run for a valid length
    does: exit status 0 and nothing on standard error. *)
Lemma negative_length_undocumented :
  documentation "generate_api_key.py"
  = ["Generate a secure API key of specified length.";
     "Generate a secure API key";
     "show this help message and exit";
     "Length of the API key (default: 32)";
     "Optional prefix for the API key"]
  /\ existsb documents_negative_length (documentation "generate_api_key.py")
     = false
  /\ finish (run (options (-5) "sk_") (on_tape [7%nat]))
     = (0%Z, write_stdout ("sk_" ++ newline) (on_tape [7%nat]))
  /\ stderr (world (snd (finish (run (options (-5) "sk_")
                                     (on_tape [7%nat])))))
     = EmptyString.
Proof. repeat split. Qed.

(** C5: for a negative length [generate_api_key] returns the empty string
    and raises nothing, so the program prints the prefix alone and a
    newline, writes nothing to standard error and exits with status 0. *)
Theorem negative_length_prints_prefix
    {G : Type} `{RandomSource G} (length : Z) (prefix : string)
    (st : Process G) :
  (length < 0)%Z ->
  generate_api_key (VInt length) st = (Ok EmptyString, st)
  /\ finish (run (options length prefix) st)
     = (0%Z, write_stdout (prefix ++ newline) st)
  /\ stdout (world (snd (finish (run (options length prefix) st))))
     = stdout (world st) ++ prefix ++ newline
  /\ stderr (world (snd (finish (run (options length prefix) st))))
     = stderr (world st).
Proof.
  intros Hneg.
  assert (generate_api_key (VInt length) st = (Ok EmptyString, st)) as Hgen.
  { apply generate_nonpositive. lia. }
  split; [exact Hgen|].
  rewrite (run_options length prefix st EmptyString st Hgen).
  repeat split.
Qed.

Lemma negative_length_prints_prefix_witness :
  (-5 < 0)%Z
  /\ generate_api_key (VInt (-5)) (on_tape [7%nat])
     = (Ok EmptyString, on_tape [7%nat])
  /\ finish (run (options (-5) "sk_") (on_tape [7%nat]))
     = (0%Z, write_stdout ("sk_" ++ newline) (on_tape [7%nat]))
  /\ stdout (world (snd (finish (run (options (-5) "sk_") (on_tape [7%nat])))))
     = stdout (world (on_tape [7%nat])) ++ "sk_" ++ newline
  /\ stderr (world (snd (finish (run (options (-5) "sk_") (on_tape [7%nat])))))
     = stderr (world (on_tape [7%nat])).
Proof.
  split; [lia|].
  apply (negative_length_prints_prefix (-5) "sk_" (on_tape [7%nat])). lia.
Defined.

Section NegativeLengthExample.
#[local] Existing Instance example_formatter.

(** The parser takes [--length -5] as the length -5, and the program then
    prints the prefix alone and exits with status 0. *)
Example negative_length_from_the_command_line :
  Argparse.parse (parser "generate_api_key.py") ["--length"; "-5"]
  = Argparse.Parsed (options (-5) EmptyString)
  /\ python ["generate_api_key.py"; "-p"; "sk_"; "--length"; "-5"]
            (on_tape [7%nat])
     = (0%Z, write_stdout ("sk_" ++ newline) (on_tape [7%nat])).
Proof. split; reflexivity. Qed.
End NegativeLengthExample.

(** ** The argument parser *)

Module ArgparseFacts.
Import Argparse.







(** [consume] stops only with the help or an error. *)
Lemma take_actions_stop (l : list (Action * list string)) :
  forall pr o, take_actions l pr = Stop o -> forall ns, o <> Parsed ns.
Proof.
  induction l as [|[action arg_strings] l IH]; intros pr o Hstop ns;
    simpl in Hstop.
  - discriminate.
  - destruct action as [os|os d t df h].
    + injection Hstop as <-. discriminate.
    + destruct (get_values _ t arg_strings) as [message|v].
      * injection Hstop as <-. discriminate.
      * eapply IH. eassumption.
Qed.





Lemma consume_option (p : ArgumentParser) (a : string) (action : Action)
    (o : string) (e : option string) (rest : list (string * pattern))
    (pr : progress) :
  consume p ((a, PO (Some action, o, e)) :: rest) pr
  = match plan_optional p action o e with
    | PlanError message => Stop (UsageError message)
    | PlanDone action_tuples =>
        match take_actions action_tuples pr with
        | Continue pr' => consume p rest pr'
        | Stop out => Stop out
        end
    | PlanNext action_tuples (HelpAction os) =>
        match take_actions (action_tuples ++ [(HelpAction os, [])])%list
                           pr with
        | Continue pr' => consume p rest pr'
        | Stop out => Stop out
        end
    | PlanNext action_tuples (StoreAction os d t df h) =>
        match rest with
        | (next, PA) :: rest' =>
            match take_actions
                    (action_tuples
                     ++ [(StoreAction os d t df h, [next])])%list
                    pr with
            | Continue pr' => consume p rest' pr'
            | Stop out => Stop out
            end
        | _ =>
            Stop (UsageError (argument_error (StoreAction os d t df h)
                                "expected one argument"))
        end
    end.
Proof. reflexivity. Qed.




End ArgparseFacts.

(** ** The parsed options *)




Section MainBlock.
Context {G : Type} `{RandomSource G} {F : Argparse.HelpFormatter}.

Lemma main_parsed (path : string) (arg_strings : list string) (ns : Namespace)
    (st : Process G) :
  Argparse.parse (parser (Str.basename path)) arg_strings
  = Argparse.Parsed ns ->
  main (path :: arg_strings) st = run ns st.
Proof.
  intros Hparse. unfold main. cbn [hd tl].
  unfold bind, Argparse.parse_args. rewrite Hparse. reflexivity.
Qed.

Lemma main_usage_error (path : string) (arg_strings : list string)
    (message : string) (st : Process G) :
  Argparse.parse (parser (Str.basename path)) arg_strings
  = Argparse.UsageError message ->
  main (path :: arg_strings) st
  = Argparse.error (parser (Str.basename path)) message st.
Proof.
  intros Hparse. unfold main. cbn [hd tl].
  unfold bind, Argparse.parse_args. rewrite Hparse. reflexivity.
Qed.

Lemma main_help (path : string) (arg_strings : list string) (st : Process G) :
  Argparse.parse (parser (Str.basename path)) arg_strings
  = Argparse.HelpRequested ->
  main (path :: arg_strings) st
  = Argparse.print_help_and_exit (parser (Str.basename path)) st.
Proof.
  intros Hparse. unfold main. cbn [hd tl].
  unfold bind, Argparse.parse_args. rewrite Hparse. reflexivity.
Qed.

Lemma python_usage_error (path : string) (arg_strings : list string)
    (message : string) (st : Process G) :
  Argparse.parse (parser (Str.basename path)) arg_strings
  = Argparse.UsageError message ->
  ends_in_usage_error path arg_strings st.
Proof.
  intros Hparse. exists message. unfold python.
  rewrite (main_usage_error path arg_strings message st Hparse).
  unfold Argparse.error, finish, write_stderr. simpl.
  repeat split. rewrite append_assoc. reflexivity.
Qed.
End MainBlock.


Section DefaultExample.
#[local] Existing Instance example_formatter.

Example default_invocation :
  python ["generate_api_key.py"] (on_tape (seq 0 32))
  = (0%Z, write_stdout ("abcdefghijklmnopqrstuvwxyzABCDEF" ++ newline)
                       (on_tape [])).
Proof. reflexivity. Qed.
End DefaultExample.

(** ** Errors of the parser *)

Lemma with_explicit_arg_store (p : Argparse.ArgumentParser)
    (os : list string) (d : string) (t : Argparse.arg_type) (df : value)
    (h option_string explicit_arg : string)
    (acc : list (Argparse.Action * list string)) :
  Argparse.with_explicit_arg p (Argparse.StoreAction os d t df h)
    option_string explicit_arg acc
  = Argparse.PlanDone
      (acc ++ [(Argparse.StoreAction os d t df h, [explicit_arg])])%list.
Proof. destruct explicit_arg; reflexivity. Qed.

Lemma consume_explicit_store (p : Argparse.ArgumentParser) (a : string)
    (os : list string) (d : string) (t : Argparse.arg_type) (df : value)
    (h o e : string) (rest : list (string * Argparse.pattern))
    (pr : Argparse.progress) :
  Argparse.consume p
    ((a, Argparse.PO (Some (Argparse.StoreAction os d t df h), o, Some e))
     :: rest) pr
  = match Argparse.get_values (Argparse.StoreAction os d t df h) t [e] with
    | inl message => Argparse.Stop (Argparse.UsageError message)
    | inr v =>
        Argparse.consume p rest
          (Argparse.mkProgress (setattr (Argparse.namespace pr) d v)
                               (d :: Argparse.seen pr) (Argparse.extras pr))
    end.
Proof.
  rewrite ArgparseFacts.consume_option. cbn [Argparse.plan_optional].
  rewrite with_explicit_arg_store. cbn [app Argparse.take_actions].
  destruct (Argparse.get_values _ t [e]); reflexivity.
Qed.

Lemma consume_store_next (p : Argparse.ArgumentParser) (a : string)
    (os : list string) (d : string) (t : Argparse.arg_type) (df : value)
    (h o next : string) (rest : list (string * Argparse.pattern))
    (pr : Argparse.progress) :
  Argparse.consume p
    ((a, Argparse.PO (Some (Argparse.StoreAction os d t df h), o, None))
     :: (next, Argparse.PA) :: rest) pr
  = match Argparse.get_values (Argparse.StoreAction os d t df h) t [next]
    with
    | inl message => Argparse.Stop (Argparse.UsageError message)
    | inr v =>
        Argparse.consume p rest
          (Argparse.mkProgress (setattr (Argparse.namespace pr) d v)
                               (d :: Argparse.seen pr) (Argparse.extras pr))
    end.
Proof.
  rewrite ArgparseFacts.consume_option.
  cbn [Argparse.plan_optional app Argparse.take_actions].
  destruct (Argparse.get_values _ t [next]); reflexivity.
Qed.

Lemma get_values_single (action : Argparse.Action) (t : Argparse.arg_type)
    (s : string) :
  s <> "--" ->
  Argparse.get_values action t [s] = Argparse.get_value action t s.
Proof.
  intros Hs. unfold Argparse.get_values, Argparse.remove_dashes.
  destruct (String.eqb_spec s "--") as [E|_]; [contradiction | reflexivity].
Qed.

Lemma consume_stop (p : Argparse.ArgumentParser) (n : nat) :
  forall items pr o,
    (List.length items <= n)%nat ->
    Argparse.consume p items pr = Argparse.Stop o ->
    forall ns, o <> Argparse.Parsed ns.
Proof.
  induction n as [|n IH]; intros items pr o Hlen Hgo.
  - destruct items; [discriminate | simpl in Hlen; lia].
  - destruct items as [|[a [[[[action|] o'] e]| |]] rest];
      [discriminate| | | |]; simpl in Hlen.
    + rewrite ArgparseFacts.consume_option in Hgo.
      destruct (Argparse.plan_optional p action o' e) as [m|l|l last].
      * injection Hgo as <-. discriminate.
      * destruct (Argparse.take_actions l pr) as [pr1|out] eqn:Et.
        -- apply (IH rest pr1 o); [lia | exact Hgo].
        -- injection Hgo as <-.
           apply (ArgparseFacts.take_actions_stop _ _ _ Et).
      * destruct last as [os|os d t df h].
        -- destruct (Argparse.take_actions _ pr) as [pr1|out] eqn:Et.
           ++ apply (IH rest pr1 o); [lia | exact Hgo].
           ++ injection Hgo as <-.
              apply (ArgparseFacts.take_actions_stop _ _ _ Et).
        -- destruct rest as [|[next [t'| |]] rest'];
             try (injection Hgo as <-; discriminate).
           destruct (Argparse.take_actions _ pr) as [pr1|out] eqn:Et.
           ++ apply (IH rest' pr1 o); [simpl in Hlen; lia | exact Hgo].
           ++ injection Hgo as <-.
              apply (ArgparseFacts.take_actions_stop _ _ _ Et).
    + simpl in Hgo. eapply IH; [ | exact Hgo]; lia.
    + simpl in Hgo. eapply IH; [ | exact Hgo]; lia.
    + simpl in Hgo. eapply IH; [ | exact Hgo]; lia.
Qed.

Lemma convert_defaults_stop (acts : list Argparse.Action) :
  forall pr o,
    Argparse.convert_defaults acts pr = Argparse.Stop o ->
    forall ns, o <> Argparse.Parsed ns.
Proof.
  induction acts as [|action acts IH]; intros pr o Hgo; simpl in Hgo.
  - discriminate.
  - destruct action as [os|os d t df h]; [eauto|].
    destruct df as [z|s|items]; [eauto| |eauto].
    destruct (existsb (String.eqb d) (Argparse.seen pr)); [eauto|].
    destruct (Argparse.get_value _ t s) as [m|v]; [|eauto].
    injection Hgo as <-. discriminate.
Qed.










Section ParserErrorExamples.
#[local] Existing Instance example_formatter.

Example length_abc_is_refused :
  python ["generate_api_key.py"; "--length"; "abc"] (on_tape [1%nat])
  = (2%Z,
     write_stderr
       ("usage: generate_api_key.py [-h] [-l LENGTH] [-p PREFIX]" ++ newline
        ++ "generate_api_key.py: error: argument -l/--length: "
        ++ "invalid int value: 'abc'" ++ newline)
       (on_tape [1%nat])).
Proof. reflexivity. Qed.

Example bogus_flag_is_refused :
  python ["generate_api_key.py"; "--bogus"] (on_tape [1%nat])
  = (2%Z,
     write_stderr
       ("usage: generate_api_key.py [-h] [-l LENGTH] [-p PREFIX]" ++ newline
        ++ "generate_api_key.py: error: unrecognized arguments: --bogus"
        ++ newline)
       (on_tape [1%nat])).
Proof. reflexivity. Qed.


End ParserErrorExamples.

(** * Further properties of the script *)

(** ** [generate_api_key] *)

Section GenerateMore.
Context {G : Type} `{RandomSource G}.

(** The loop body does not look at the loop variable, so only the number
    of items counts. *)
Lemma choice_alphabet_draw (st : Process G) :
  choice alphabet st
  = let (i, g1) := randbelow 62 (entropy st) in
    match String.get i alphabet with
    | Some c => (Ok c, mkProcess (world st) g1)
    | None =>
        (Raise (IndexError "string index out of range"),
         mkProcess (world st) g1)
    end.
Proof.
  unfold choice.
  change (Nat.eqb (String.length alphabet) 0) with false. cbv iota.
  unfold bind, draw. change (String.length alphabet) with 62%nat.
  destruct (randbelow 62 (entropy st)) as [i g1].
  unfold getitem. destruct (String.get i alphabet); reflexivity.
Qed.

Lemma for_each_choice_draws {A} (xs : list A) :
  forall st : Process G,
  exists cs,
    for_each xs (fun _ => choice alphabet) st
    = (Ok cs,
       mkProcess (world st)
                 (snd (draws 62 (List.length xs) (entropy st))))
    /\ map (fun i => String.get i alphabet)
           (fst (draws 62 (List.length xs) (entropy st)))
       = map Some cs.
Proof.
  induction xs as [|x xs IH]; intros st.
  - exists []. cbn [for_each List.length draws fst snd map]. unfold ret.
    rewrite process_eta. auto.
  - cbn [for_each List.length draws].
    pose proof (randbelow_lt 62 (entropy st) ltac:(lia)) as Hlt.
    destruct (randbelow 62 (entropy st)) as [i g1] eqn:Ei.
    cbn [fst] in Hlt.
    destruct (get_in_range alphabet i Hlt) as [c Hc].
    destruct (IH (mkProcess (world st) g1)) as (cs & Hcs & Hmap).
    cbn [world entropy] in Hcs, Hmap.
    destruct (draws 62 (List.length xs) g1) as [rest g2].
    cbn [fst snd] in *.
    exists (c :: cs). split.
    + unfold bind at 1. cbv beta. rewrite choice_alphabet_draw, Ei, Hc.
      unfold bind at 1. rewrite Hcs. reflexivity.
    + cbn [map]. rewrite Hc, Hmap. reflexivity.
Qed.

Lemma for_each_app {A B} (xs ys : list A) (body : A -> M (Process G) B) :
  forall st bs st1 cs st2,
    for_each xs body st = (Ok bs, st1) ->
    for_each ys body st1 = (Ok cs, st2) ->
    for_each (xs ++ ys)%list body st = (Ok (bs ++ cs)%list, st2).
Proof.
  induction xs as [|x xs IH]; intros st bs st1 cs st2 Hxs Hys; simpl in *.
  - unfold ret in Hxs. injection Hxs as <- <-. exact Hys.
  - unfold bind at 1 in Hxs. unfold bind at 1.
    destruct (body x st) as [[b|e] st'] ; [|discriminate].
    unfold bind at 1 in Hxs. unfold bind at 1.
    destruct (for_each xs body st') as [[bs'|e] st''] eqn:E; [|discriminate].
    unfold ret in Hxs. injection Hxs as <- <-.
    rewrite (IH st' bs' st'' cs st2 E Hys). reflexivity.
Qed.

Lemma for_each_const {A A' B} (c : M (Process G) B)
    (xs : list A) (ys : list A') :
  List.length xs = List.length ys ->
  for_each xs (fun _ => c) = for_each ys (fun _ => c).
Proof.
  revert ys. induction xs as [|x xs IH]; intros [|y ys] Hlen;
    simpl in *; try discriminate; [reflexivity|].
  rewrite (IH ys) by congruence. reflexivity.
Qed.

Lemma string_of_list_app (bs cs : list ascii) :
  string_of_list_ascii (bs ++ cs)%list
  = string_of_list_ascii bs ++ string_of_list_ascii cs.
Proof. induction bs; simpl; congruence. Qed.

Lemma generate_as_for_each (n : Z) (st : Process G) :
  generate_api_key (VInt n) st
  = match for_each (seq 0 (Z.to_nat n)) (fun _ => choice alphabet) st with
    | (Ok cs, st') => (Ok (join cs), st')
    | (Raise e, st') => (Raise e, st')
    end.
Proof.
  unfold generate_api_key, bind at 1, range, ret at 1.
  fold alphabet. unfold bind.
  rewrite (for_each_const (choice alphabet)
             (map Z.of_nat (seq 0 (Z.to_nat n))) (seq 0 (Z.to_nat n)))
    by apply length_map.
  destruct (for_each _ _ st) as [[cs|e] st']; reflexivity.
Qed.
End GenerateMore.

(** X1: two calls in a row give what one call for the sum of the lengths
    gives: the keys concatenate and the entropy source ends in the same
    state. *)
Theorem generate_api_key_concat
    {G : Type} `{RandomSource G} (m n : Z) (st st1 st2 : Process G)
    (k1 k2 : string) :
  (0 <= m)%Z -> (0 <= n)%Z ->
  generate_api_key (VInt m) st = (Ok k1, st1) ->
  generate_api_key (VInt n) st1 = (Ok k2, st2) ->
  generate_api_key (VInt (m + n)) st = (Ok (k1 ++ k2), st2).
Proof.
  intros Hm Hn H1 H2.
  rewrite generate_as_for_each in H1, H2 |- *.
  destruct (for_each (seq 0 (Z.to_nat m)) _ st) as [[bs|e] st1'] eqn:E1;
    [|discriminate].
  injection H1 as <- <-.
  destruct (for_each (seq 0 (Z.to_nat n)) _ st1') as [[cs|e] st2'] eqn:E2;
    [|discriminate].
  injection H2 as <- <-.
  rewrite (for_each_const (choice alphabet) (seq 0 (Z.to_nat (m + n)))
             (seq 0 (Z.to_nat m) ++ seq 0 (Z.to_nat n))%list).
  - rewrite (for_each_app _ _ _ st bs st1' cs st2' E1 E2).
    unfold join. rewrite string_of_list_app. reflexivity.
  - rewrite length_app, !length_seq. lia.
Qed.

Lemma generate_api_key_concat_witness :
  (0 <= 2)%Z /\ (0 <= 1)%Z
  /\ generate_api_key (VInt 2) (on_tape [0; 27; 61]%nat)
     = (Ok "aB", on_tape [61%nat])
  /\ generate_api_key (VInt 1) (on_tape [61%nat]) = (Ok "9", on_tape [])
  /\ generate_api_key (VInt (2 + 1)) (on_tape [0; 27; 61]%nat)
     = (Ok ("aB" ++ "9"), on_tape []).
Proof.
  split; [lia|]. split; [lia|]. split; [reflexivity|]. split; [reflexivity|].
  apply (generate_api_key_concat 2 1 (on_tape [0; 27; 61]%nat)
           (on_tape [61%nat]) (on_tape []) "aB" "9");
    [lia | lia | reflexivity | reflexivity].
Defined.

(** X2: a call for [length] reads the entropy source exactly
    [max(0, length)] times, each time for a number below 62, and the
    character at each position is the character of the alphabet at the
    number drawn for that position. *)
Theorem generate_api_key_draws
    {G : Type} `{RandomSource G} (length : Z) (st : Process G) :
  exists key,
    generate_api_key (VInt length) st
    = (Ok key,
       mkProcess (world st)
                 (snd (draws 62 (Z.to_nat length) (entropy st))))
    /\ map (fun i => String.get i alphabet)
           (fst (draws 62 (Z.to_nat length) (entropy st)))
       = map Some (list_ascii_of_string key).
Proof.
  destruct (for_each_choice_draws (seq 0 (Z.to_nat length)) st)
    as (cs & Hcs & Hmap).
  rewrite length_seq in Hcs, Hmap.
  exists (join cs). rewrite generate_as_for_each, Hcs.
  split; [reflexivity|].
  unfold join. rewrite list_ascii_of_string_of_list_ascii. exact Hmap.
Qed.

Lemma get_nth_error (s : string) :
  forall i, String.get i s = nth_error (list_ascii_of_string s) i.
Proof.
  induction s as [|c s IH]; intros [|i]; simpl; auto.
Qed.

Lemma for_each_choice_from_tape (cs : list ascii) :
  Forall (fun c => In c (list_ascii_of_string alphabet)) cs ->
  exists tape,
    forall (xs : list nat) (w : World),
      List.length xs = List.length cs ->
      for_each xs (fun _ => choice alphabet) (mkProcess w tape)
      = (Ok cs, mkProcess w []).
Proof.
  induction 1 as [|c cs Hc Hcs (tape & IH)].
  - exists []. intros [|x xs] w Hlen; [reflexivity | discriminate].
  - apply In_nth_error in Hc. destruct Hc as [i Hi].
    assert (i < 62)%nat as Hlt.
    { change 62%nat with (List.length (list_ascii_of_string alphabet)).
      apply nth_error_Some. congruence. }
    exists (i :: tape). intros [|x xs] w Hlen; [discriminate|].
    cbn [for_each]. unfold bind at 1. cbv beta.
    rewrite choice_alphabet_draw. cbn [entropy world randbelow TapeSource
                                       tape_randbelow].
    rewrite (Nat.mod_small i 62 Hlt), get_nth_error, Hi.
    unfold bind at 1. rewrite (IH xs w) by (simpl in Hlen; congruence).
    reflexivity.
Qed.

(** X3: every string of alphanumeric characters is a key the function can
    return: some run of the entropy source makes a call for its length
    return exactly that string. *)
Theorem every_alphanumeric_key_is_generated (key : string) :
  Forall (fun c => alphanumeric c = true) (list_ascii_of_string key) ->
  exists tape,
    generate_api_key (VInt (Z.of_nat (String.length key))) (on_tape tape)
    = (Ok key, on_tape []).
Proof.
  intros Hkey.
  destruct (for_each_choice_from_tape (list_ascii_of_string key))
    as (tape & Htape).
  { eapply Forall_impl; [|exact Hkey]. intros c. apply In_alphabet. }
  exists tape. rewrite generate_as_for_each. unfold on_tape.
  rewrite Htape.
  - unfold join. rewrite string_of_list_ascii_of_string. reflexivity.
  - rewrite length_seq, Nat2Z.id.
    rewrite <- (length_string_of_list (list_ascii_of_string key)).
    rewrite string_of_list_ascii_of_string. reflexivity.
Qed.

Lemma every_alphanumeric_key_is_generated_witness :
  Forall (fun c => alphanumeric c = true) (list_ascii_of_string "Zz09")
  /\ exists tape,
       generate_api_key (VInt (Z.of_nat (String.length "Zz09")))
                        (on_tape tape)
       = (Ok "Zz09", on_tape []).
Proof.
  assert (Forall (fun c => alphanumeric c = true)
                 (list_ascii_of_string "Zz09")) as Hkey.
  { repeat constructor. }
  split; [exact Hkey|].
  apply (every_alphanumeric_key_is_generated "Zz09" Hkey).
Defined.

(** ** Lines 21-22 and the main block *)

Lemma append_grows (a b : string) : b <> EmptyString -> a ++ b <> a.
Proof.
  intros Hb E.
  assert (String.length (a ++ b) = String.length a) as Hlen by congruence.
  destruct b as [|c b]; [congruence|].
  clear E Hb. induction a as [|x a IH]; simpl in Hlen; [discriminate|].
  apply IH. congruence.
Qed.

Lemma count_char_app (c : ascii) (a b : string) :
  count_char c (a ++ b) = (count_char c a + count_char c b)%nat.
Proof. induction a as [|x a IH]; simpl; [reflexivity | rewrite IH; lia]. Qed.

Lemma length_append (a b : string) :
  String.length (a ++ b) = (String.length a + String.length b)%nat.
Proof. induction a as [|x a IH]; simpl; congruence. Qed.

Lemma count_newline_alphanumeric (s : string) :
  Forall (fun c => In c (list_ascii_of_string alphabet))
         (list_ascii_of_string s) ->
  count_char (ascii_of_nat 10) s = 0%nat.
Proof.
  induction s as [|c s IH]; simpl; intros Hall; [reflexivity|].
  inversion Hall as [|? ? Hc Hs]; subst.
  rewrite (IH Hs). apply In_alphabet in Hc.
  destruct (Ascii.eqb_spec c (ascii_of_nat 10)) as [->|_];
    [discriminate | reflexivity].
Qed.

(** X5: when the prefix has no newline in it, lines 21-22 print one line
    and nothing else: standard output gains a text that has exactly one
    newline, its last character, and that is the prefix, the key the call
    returns and the newline, [len(prefix) + max(0, length) + 1] characters
    in all; standard error gains nothing. *)
Theorem printed_text_is_one_line
    {G : Type} `{RandomSource G} (length : Z) (prefix : string)
    (st : Process G) :
  count_char (ascii_of_nat 10) prefix = 0%nat ->
  exists key st1 text,
    generate_api_key (VInt length) st = (Ok key, st1)
    /\ text = prefix ++ key ++ newline
    /\ run (options length prefix) st = (Ok tt, write_stdout text st1)
    /\ stdout (world (snd (run (options length prefix) st)))
       = stdout (world st) ++ text
    /\ stderr (world (snd (run (options length prefix) st)))
       = stderr (world st)
    /\ count_char (ascii_of_nat 10) text = 1%nat
    /\ String.length text
       = (String.length prefix + Z.to_nat length + 1)%nat.
Proof.
  intros Hprefix.
  destruct (generate_returns length st) as (key & g' & Hgen & Hlen & Hall).
  exists key, (mkProcess (world st) g'), (prefix ++ key ++ newline).
  split; [exact Hgen|]. split; [reflexivity|].
  rewrite (run_options length prefix st key _ Hgen).
  split; [reflexivity|]. split; [reflexivity|]. split; [reflexivity|].
  split.
  - rewrite !count_char_app, Hprefix, (count_newline_alphanumeric key Hall).
    reflexivity.
  - rewrite !length_append, Hlen. change (String.length newline) with 1%nat.
    lia.
Qed.

Lemma printed_text_is_one_line_witness :
  count_char (ascii_of_nat 10) "sk_" = 0%nat
  /\ exists key st1 text,
       generate_api_key (VInt 4) (on_tape [10; 20; 30; 40]%nat)
       = (Ok key, st1)
       /\ text = "sk_" ++ key ++ newline
       /\ run (options 4 "sk_") (on_tape [10; 20; 30; 40]%nat)
          = (Ok tt, write_stdout text st1)
       /\ stdout (world (snd (run (options 4 "sk_")
                                  (on_tape [10; 20; 30; 40]%nat))))
          = stdout (world (on_tape [10; 20; 30; 40]%nat)) ++ text
       /\ stderr (world (snd (run (options 4 "sk_")
                                  (on_tape [10; 20; 30; 40]%nat))))
          = stderr (world (on_tape [10; 20; 30; 40]%nat))
       /\ count_char (ascii_of_nat 10) text = 1%nat
       /\ String.length text = (String.length "sk_" + Z.to_nat 4 + 1)%nat.
Proof.
  split; [reflexivity|].
  apply (printed_text_is_one_line 4 "sk_" (on_tape [10; 20; 30; 40]%nat)).
  reflexivity.
Defined.

Section RunMore.
Context {G : Type} `{RandomSource G}.

(** How lines 21-22 end, by the objects the two attributes hold. *)
Lemma run_cases (ns : Namespace) (st : Process G) :
  (exists p n key g',
      lookup "prefix" ns = Some (VStr p)
      /\ lookup "length" ns = Some (VInt n)
      /\ generate_api_key (VInt n) st = (Ok key, mkProcess (world st) g')
      /\ run ns st
         = (Ok tt, write_stdout (p ++ key ++ newline)
                                (mkProcess (world st) g')))
  \/ (exists e g',
         run ns st = (Raise e, mkProcess (world st) g')
         /\ (exists msg, e = TypeError msg \/ e = AttributeError msg)
         /\ ~ (exists p n, lookup "prefix" ns = Some (VStr p)
                           /\ lookup "length" ns = Some (VInt n))).
Proof.
  unfold run, getattr.
  destruct (lookup "prefix" ns) as [prefix|].
  2:{ right. exists (AttributeError "prefix"), (entropy st).
      rewrite process_eta. split; [reflexivity|]. split; [eauto|].
      intros (p & n & Hp & _). discriminate. }
  destruct (lookup "length" ns) as [length|].
  2:{ right. exists (AttributeError "length"), (entropy st).
      rewrite process_eta. split; [reflexivity|]. split; [eauto|].
      intros (p & n & _ & Hn). discriminate. }
  destruct length as [n|s|items].
  - destruct (generate_returns n st) as (key & g' & Hgen & _).
    destruct prefix as [z|p|items].
    + right. eexists (TypeError _), g'.
      unfold bind, ret. rewrite Hgen. split; [reflexivity|].
      split; [eauto|]. intros (p & n' & Hp & _). discriminate.
    + left. exists p, n, key, g'. unfold bind, ret. rewrite Hgen.
      unfold add_str, ret, print. rewrite append_assoc. auto.
    + right. eexists (TypeError _), g'.
      unfold bind, ret. rewrite Hgen. split; [reflexivity|].
      split; [eauto|]. intros (p & n' & Hp & _). discriminate.
  - right. eexists (TypeError _), (entropy st).
    rewrite process_eta. split; [reflexivity|]. split; [eauto|].
    intros (p & n & _ & Hn). discriminate.
  - right. eexists (TypeError _), (entropy st).
    rewrite process_eta. split; [reflexivity|]. split; [eauto|].
    intros (p & n & _ & Hn). discriminate.
Qed.
End RunMore.

(** X6: lines 21-22 end normally exactly when [args.prefix] is a string
    and [args.length] an integer; then one line is printed.  Otherwise an
    exception is raised and nothing at all is written, neither to standard
    output nor to standard error. *)
Theorem run_succeeds_iff_typed
    {G : Type} `{RandomSource G} (ns : Namespace) (st : Process G) :
  (fst (run ns st) = Ok tt
   <-> exists p n, lookup "prefix" ns = Some (VStr p)
                   /\ lookup "length" ns = Some (VInt n))
  /\ (fst (run ns st) = Ok tt
      \/ world (snd (run ns st)) = world st).
Proof.
  destruct (run_cases ns st)
    as [(p & n & key & g' & Hp & Hn & _ & Hrun)
       |(e & g' & Hrun & _ & Hno)];
    rewrite Hrun; simpl.
  - split; [|left; reflexivity]. split; [eauto | reflexivity].
  - split; [|right; reflexivity]. split; [discriminate|].
    intros Hyes. destruct (Hno Hyes).
Qed.

(** X7: exit status and output streams agree, the two streams being taken
    to accept what is written to them: a run that ends with exit status 0
    has added nothing to standard error, and a run that ends with another
    status has added nothing to standard output (no partial line) and has
    added a message to standard error. *)
Theorem exit_status_and_streams
    {G : Type} `{RandomSource G} {F : Argparse.HelpFormatter}
    (argv : list string) (st : Process G) :
  (fst (python argv st) = 0%Z
   /\ stderr (world (snd (python argv st))) = stderr (world st))
  \/ (fst (python argv st) <> 0%Z
      /\ stdout (world (snd (python argv st))) = stdout (world st)
      /\ stderr (world (snd (python argv st))) <> stderr (world st)).
Proof.
  unfold python, main, bind, Argparse.parse_args.
  destruct (Argparse.parse _ (tl argv)) as [ns| |message].
  - unfold ret.
    destruct (run_cases ns st)
      as [(p & n & key & g' & _ & _ & _ & Hrun)
         |(e & g' & Hrun & (msg & [->| ->]) & _)];
      rewrite Hrun.
    + left. split; reflexivity.
    + right. split; [discriminate|]. split; [reflexivity|].
      simpl. apply append_grows. discriminate.
    + right. split; [discriminate|]. split; [reflexivity|].
      simpl. apply append_grows. discriminate.
  - left. split; reflexivity.
  - right. split; [discriminate|]. split; [reflexivity|].
    simpl. rewrite append_assoc. apply append_grows.
    intros E. apply (f_equal String.length) in E.
    rewrite !length_append in E. simpl in E. lia.
Qed.

(** ** The command line *)

Lemma classify_prefix_option (prog : string) (s : string) :
  Argparse.classify (parser prog) ["--prefix=" ++ s]
  = inr [("--prefix=" ++ s,
          Argparse.PO (Some prefix_action, "--prefix", Some s))].
Proof. reflexivity. Qed.

Lemma classify_length_option (prog : string) (v : string) :
  Argparse.classify (parser prog) ["--length=" ++ v]
  = inr [("--length=" ++ v,
          Argparse.PO (Some length_action, "--length", Some v))].
Proof. reflexivity. Qed.

(** X8: [--prefix=TEXT] hands any text other than [--] to the program
    unchanged, also a text that starts with a dash or holds [=] or blanks:
    the options are length 32 and that prefix, and the line printed is the
    text followed by the key the call for 32 characters returns. *)
Theorem prefix_option_unchanged
    {G : Type} `{RandomSource G} {F : Argparse.HelpFormatter}
    (path s : string) (st : Process G) :
  s <> "--" ->
  Argparse.parse (parser (Str.basename path)) ["--prefix=" ++ s]
  = Argparse.Parsed (options 32 s)
  /\ exists key st',
       generate_api_key (VInt 32) st = (Ok key, st')
       /\ python [path; "--prefix=" ++ s] st
          = (0%Z, write_stdout (s ++ key ++ newline) st')
       /\ stdout (world (snd (python [path; "--prefix=" ++ s] st)))
          = stdout (world st) ++ s ++ key ++ newline.
Proof.
  intros Hs.
  assert (Argparse.parse (parser (Str.basename path)) ["--prefix=" ++ s]
          = Argparse.Parsed (options 32 s)) as Hparse.
  { unfold Argparse.parse. rewrite classify_prefix_option.
    unfold prefix_action. rewrite consume_explicit_store.
    fold prefix_action. rewrite (get_values_single _ _ s Hs).
    reflexivity. }
  split; [exact Hparse|].
  destruct (generate_returns 32 st) as (key & g' & Hgen & _).
  exists key, (mkProcess (world st) g'). split; [exact Hgen|].
  unfold python.
  rewrite (main_parsed path _ _ st Hparse).
  rewrite (run_options 32 s st key _ Hgen). split; reflexivity.
Qed.

Section PrefixExample.
#[local] Existing Instance example_formatter.

Lemma prefix_option_unchanged_witness :
  "-x y=z" <> "--"
  /\ Argparse.parse (parser (Str.basename "/usr/bin/generate_api_key.py"))
       ["--prefix=" ++ "-x y=z"]
     = Argparse.Parsed (options 32 "-x y=z")
  /\ exists key st',
       generate_api_key (VInt 32) (on_tape []) = (Ok key, st')
       /\ python ["/usr/bin/generate_api_key.py"; "--prefix=" ++ "-x y=z"]
                 (on_tape [])
          = (0%Z, write_stdout ("-x y=z" ++ key ++ newline) st')
       /\ stdout (world (snd (python ["/usr/bin/generate_api_key.py";
                                      "--prefix=" ++ "-x y=z"]
                                     (on_tape []))))
          = stdout (world (on_tape [])) ++ "-x y=z" ++ key ++ newline.
Proof.
  assert ("-x y=z" <> "--") as Hs by discriminate.
  split; [exact Hs|].
  apply (prefix_option_unchanged "/usr/bin/generate_api_key.py" "-x y=z"
           (on_tape []) Hs).
Defined.
End PrefixExample.

(** X9: [--length=VALUE], for a value of ASCII text other than [--], is
    taken exactly when [int()] takes the value: then the length is that
    integer (a negative one too) and the prefix the default; otherwise the
    parser reports the value as an invalid int. *)
Theorem length_option_is_int (prog v : string) :
  Str.isascii v = true ->
  v <> "--" ->
  Argparse.parse (parser prog) ["--length=" ++ v]
  = match int_of_str v with
    | Some n => Argparse.Parsed (options n EmptyString)
    | None =>
        Argparse.UsageError
          ("argument -l/--length: invalid int value: " ++ repr v)
    end.
Proof.
  intros _ Hv. unfold Argparse.parse. rewrite classify_length_option.
  unfold length_action. rewrite consume_explicit_store.
  fold length_action. rewrite (get_values_single _ _ v Hv).
  unfold Argparse.get_value.
  destruct (int_of_str v) as [n|]; reflexivity.
Qed.

Lemma length_option_is_int_witness :
  Str.isascii " -1_0 " = true
  /\ " -1_0 " <> "--"
  /\ Argparse.parse (parser "generate_api_key.py") ["--length=" ++ " -1_0 "]
     = match int_of_str " -1_0 " with
       | Some n => Argparse.Parsed (options n EmptyString)
       | None =>
           Argparse.UsageError
             ("argument -l/--length: invalid int value: " ++ repr " -1_0 ")
       end
  /\ int_of_str " -1_0 " = Some (-10)%Z.
Proof.
  assert (" -1_0 " <> "--") as Hv by discriminate.
  split; [reflexivity|]. split; [exact Hv|]. split; [|reflexivity].
  apply (length_option_is_int "generate_api_key.py" " -1_0 " eq_refl Hv).
Defined.

Lemma classify_help_first (prog : string) (arg_strings : list string) :
  Argparse.classify (parser prog) ("--help" :: arg_strings)
  = match Argparse.classify (parser prog) arg_strings with
    | inl message => inl message
    | inr items =>
        inr (("--help",
              Argparse.PO (Some (Argparse.HelpAction ["-h"; "--help"]),
                           "--help", None)) :: items)
    end.
Proof. reflexivity. Qed.

(** X10: with [--help] first on the command line no key is printed and
    the entropy source is not read, whatever follows: the help text of the
    formatter goes to standard output and the exit status is 0, unless an
    arg string after it is an ambiguous abbreviation, which the parser
    reports before it takes any action. *)
Theorem help_first_prints_help
    {G : Type} `{RandomSource G} {F : Argparse.HelpFormatter}
    (path : string) (arg_strings : list string) (st : Process G) :
  (exists items,
      Argparse.classify (parser (Str.basename path)) arg_strings = inr items
      /\ python (path :: "--help" :: arg_strings) st
         = (0%Z,
            write_stdout
              (Argparse.format_help (parser (Str.basename path)) (world st))
              st))
  \/ (exists message,
         Argparse.classify (parser (Str.basename path)) arg_strings
         = inl message
         /\ ends_in_usage_error path ("--help" :: arg_strings) st).
Proof.
  assert (Argparse.parse (parser (Str.basename path))
            ("--help" :: arg_strings)
          = match Argparse.classify (parser (Str.basename path)) arg_strings
            with
            | inl message => Argparse.UsageError message
            | inr _ => Argparse.HelpRequested
            end) as Hparse.
  { unfold Argparse.parse. rewrite classify_help_first.
    destruct (Argparse.classify _ arg_strings); reflexivity. }
  destruct (Argparse.classify (parser (Str.basename path)) arg_strings)
    as [message|items].
  - right. exists message. split; [reflexivity|].
    apply (python_usage_error path _ message st Hparse).
  - left. exists items. split; [reflexivity|].
    unfold python. rewrite (main_help path _ st Hparse). reflexivity.
Qed.

(** Setting an attribute removes none. *)
Lemma lookup_setattr (ns : Namespace) (name k : string) (v : value) :
  lookup k ns <> None -> lookup k (setattr ns name v) <> None.
Proof.
  induction ns as [|[k' old] ns IH]; simpl; intros Hk.
  - congruence.
  - destruct (String.eqb_spec k' name) as [->|Hne]; simpl.
    + destruct (String.eqb name k); [discriminate | exact Hk].
    + destruct (String.eqb k' k); [discriminate | auto].
Qed.

Lemma take_actions_keeps (k : string)
    (l : list (Argparse.Action * list string)) :
  forall pr pr',
    Argparse.take_actions l pr = Argparse.Continue pr' ->
    lookup k (Argparse.namespace pr) <> None ->
    lookup k (Argparse.namespace pr') <> None.
Proof.
  induction l as [|[action arg_strings] l IH]; intros pr pr' Hgo Hk;
    simpl in Hgo.
  - injection Hgo as <-. exact Hk.
  - destruct action as [os|os d t df h]; [discriminate|].
    destruct (Argparse.get_values _ t arg_strings) as [m|v]; [discriminate|].
    apply (IH _ _ Hgo). simpl. apply lookup_setattr. exact Hk.
Qed.

Lemma consume_keeps (p : Argparse.ArgumentParser) (k : string) (n : nat) :
  forall items pr pr',
    (List.length items <= n)%nat ->
    Argparse.consume p items pr = Argparse.Continue pr' ->
    lookup k (Argparse.namespace pr) <> None ->
    lookup k (Argparse.namespace pr') <> None.
Proof.
  induction n as [|n IH]; intros items pr pr' Hlen Hgo Hk.
  - destruct items; [|simpl in Hlen; lia].
    simpl in Hgo. injection Hgo as <-. exact Hk.
  - destruct items as [|[a [[[[action|] o] e]| |]] rest]; simpl in Hlen.
    + simpl in Hgo. injection Hgo as <-. exact Hk.
    + rewrite ArgparseFacts.consume_option in Hgo.
      destruct (Argparse.plan_optional p action o e) as [m|l|l last].
      * discriminate.
      * destruct (Argparse.take_actions l pr) as [pr1|out] eqn:Et;
          [|discriminate].
        apply (IH rest pr1 pr'); [lia | exact Hgo |].
        apply (take_actions_keeps k _ _ _ Et Hk).
      * destruct last as [os|os d t df h].
        -- destruct (Argparse.take_actions _ pr) as [pr1|out] eqn:Et;
             [|discriminate].
           apply (IH rest pr1 pr'); [lia | exact Hgo |].
           apply (take_actions_keeps k _ _ _ Et Hk).
        -- destruct rest as [|[next [t'| |]] rest']; try discriminate.
           destruct (Argparse.take_actions _ pr) as [pr1|out] eqn:Et;
             [|discriminate].
           apply (IH rest' pr1 pr'); [simpl in Hlen; lia | exact Hgo |].
           apply (take_actions_keeps k _ _ _ Et Hk).
    + simpl in Hgo. eapply IH; [ | exact Hgo | ]; [lia | exact Hk].
    + simpl in Hgo. eapply IH; [ | exact Hgo | ]; [lia | exact Hk].
    + simpl in Hgo. eapply IH; [ | exact Hgo | ]; [lia | exact Hk].
Qed.

Lemma convert_defaults_keeps (k : string) (acts : list Argparse.Action) :
  forall pr pr',
    Argparse.convert_defaults acts pr = Argparse.Continue pr' ->
    lookup k (Argparse.namespace pr) <> None ->
    lookup k (Argparse.namespace pr') <> None.
Proof.
  induction acts as [|action acts IH]; intros pr pr' Hgo Hk; simpl in Hgo.
  - injection Hgo as <-. exact Hk.
  - destruct action as [os|os d t df h]; [eauto|].
    destruct df as [z|s|items]; [eauto| |eauto].
    destruct (existsb (String.eqb d) (Argparse.seen pr)); [eauto|].
    destruct (Argparse.get_value _ t s) as [m|v]; [discriminate|].
    apply (IH _ _ Hgo). simpl. apply lookup_setattr. exact Hk.
Qed.


(** Every attribute the defaults set is still set after a parse. *)
Lemma parse_keeps_attributes (p : Argparse.ArgumentParser)
    (arg_strings : list string) (ns : Namespace) (k : string) :
  Argparse.parse p arg_strings = Argparse.Parsed ns ->
  lookup k (Argparse.defaults (Argparse.actions p) []) <> None ->
  lookup k ns <> None.
Proof.
  intros Hparse Hk. unfold Argparse.parse in Hparse.
  destruct (Argparse.classify p arg_strings) as [m|items]; [discriminate|].
  destruct (Argparse.consume p items _) as [pr|out] eqn:Eg.
  - destruct (Argparse.convert_defaults _ pr) as [pr'|out] eqn:Ed.
    + destruct (Argparse.extras pr'); [|discriminate].
      injection Hparse as <-.
      apply (convert_defaults_keeps k _ _ _ Ed).
      apply (consume_keeps p k _ items _ pr (le_n _) Eg). exact Hk.
    + subst out. destruct (convert_defaults_stop _ _ _ Ed ns eq_refl).
  - subst out.
    destruct (consume_stop p _ items _ _ (le_n _) Eg ns eq_refl).
Qed.

(** X11: a namespace the parser returns always has the two attributes the
    script reads, so line 21 never fails with [AttributeError]: lines
    21-22 end normally or with a [TypeError]. *)
Theorem parsed_namespace_has_attributes
    {G : Type} `{RandomSource G} (prog : string) (arg_strings : list string)
    (ns : Namespace) (st : Process G) :
  Argparse.parse (parser prog) arg_strings = Argparse.Parsed ns ->
  (exists prefix length,
      lookup "prefix" ns = Some prefix /\ lookup "length" ns = Some length)
  /\ (fst (run ns st) = Ok tt
      \/ exists msg, fst (run ns st) = Raise (TypeError msg)).
Proof.
  intros Hparse.
  assert (exists prefix length,
             lookup "prefix" ns = Some prefix
             /\ lookup "length" ns = Some length) as Hattrs.
  { destruct (lookup "prefix" ns) as [pv|] eqn:Ep.
    - destruct (lookup "length" ns) as [lv|] eqn:El; [eauto|].
      exfalso.
      apply (parse_keeps_attributes _ _ _ "length" Hparse);
        [discriminate | exact El].
    - exfalso.
      apply (parse_keeps_attributes _ _ _ "prefix" Hparse);
        [discriminate | exact Ep]. }
  split; [exact Hattrs|].
  destruct Hattrs as (pv & lv & Hp & Hl).
  assert (run ns st
          = match generate_api_key lv st with
            | (Ok key, st') =>
                match @add_str (Process G) pv key st' with
                | (Ok api_key, st'') => print api_key st''
                | (Raise e, st'') => (Raise e, st'')
                end
            | (Raise e, st') => (Raise e, st')
            end) as Hrun.
  { unfold run, getattr. rewrite Hp, Hl. reflexivity. }
  rewrite Hrun. clear Hrun.
  destruct lv as [n|s|items].
  - destruct (generate_returns n st) as (key & g' & Hgen & _).
    rewrite Hgen. destruct pv as [z|p|items]; simpl; eauto.
  - right. eexists. reflexivity.
  - right. eexists. reflexivity.
Qed.

Lemma parsed_namespace_has_attributes_witness :
  Argparse.parse (parser "generate_api_key.py") ["-p"; "sk_"; "-l5"]
  = Argparse.Parsed (options 5 "sk_")
  /\ (exists prefix length,
         lookup "prefix" (options 5 "sk_") = Some prefix
         /\ lookup "length" (options 5 "sk_") = Some length)
  /\ (fst (run (options 5 "sk_") (on_tape [1; 2; 3; 4; 5]%nat)) = Ok tt
      \/ exists msg,
           fst (run (options 5 "sk_") (on_tape [1; 2; 3; 4; 5]%nat))
           = Raise (TypeError msg)).
Proof.
  split; [reflexivity|].
  apply (parsed_namespace_has_attributes "generate_api_key.py"
           ["-p"; "sk_"; "-l5"] (options 5 "sk_")
           (on_tape [1; 2; 3; 4; 5]%nat)).
  reflexivity.
Defined.


Lemma get_values_str (action : Argparse.Action) (s : string) :
  Argparse.get_values action Argparse.type_str [s]
  = inr (if String.eqb s "--" then VList [] else VStr s).
Proof.
  unfold Argparse.get_values, Argparse.remove_dashes.
  destruct (String.eqb s "--"); reflexivity.
Qed.

(** X12: the two options can be given in either order: the command lines
    [--length=V --prefix=S] and [--prefix=S --length=V] give the same
    options or the same error, for every [V] and [S]; when neither is
    [--] and [V] is ASCII text, the options are the integer [int()] reads
    in [V] and the prefix [S], and the error is the invalid int value. *)
Theorem options_commute (prog v s : string) :
  Argparse.parse (parser prog) ["--length=" ++ v; "--prefix=" ++ s]
  = Argparse.parse (parser prog) ["--prefix=" ++ s; "--length=" ++ v]
  /\ (Str.isascii v = true -> v <> "--" -> s <> "--" ->
      Argparse.parse (parser prog) ["--length=" ++ v; "--prefix=" ++ s]
      = match int_of_str v with
        | Some n => Argparse.Parsed (options n s)
        | None =>
            Argparse.UsageError
              ("argument -l/--length: invalid int value: " ++ repr v)
        end).
Proof.
  assert (Argparse.classify (parser prog)
            ["--length=" ++ v; "--prefix=" ++ s]
          = inr [("--length=" ++ v,
                  Argparse.PO (Some length_action, "--length", Some v));
                 ("--prefix=" ++ s,
                  Argparse.PO (Some prefix_action, "--prefix", Some s))])
    as Hlp by reflexivity.
  assert (Argparse.classify (parser prog)
            ["--prefix=" ++ s; "--length=" ++ v]
          = inr [("--prefix=" ++ s,
                  Argparse.PO (Some prefix_action, "--prefix", Some s));
                 ("--length=" ++ v,
                  Argparse.PO (Some length_action, "--length", Some v))])
    as Hpl by reflexivity.
  unfold Argparse.parse. rewrite Hlp, Hpl. clear Hlp Hpl.
  unfold length_action, prefix_action.
  rewrite !consume_explicit_store.
  fold length_action. fold prefix_action.
  rewrite !get_values_str.
  destruct (Argparse.get_values length_action Argparse.type_int [v])
    as [message|lv] eqn:Ev.
  - unfold length_action. rewrite !consume_explicit_store.
    fold length_action. rewrite Ev. split; [reflexivity|].
    intros _ Hv Hs. rewrite (get_values_single _ _ v Hv) in Ev.
    unfold Argparse.get_value in Ev.
    destruct (int_of_str v); [discriminate|]. injection Ev as <-.
    reflexivity.
  - unfold length_action, prefix_action.
    rewrite !consume_explicit_store.
    fold length_action. fold prefix_action.
    rewrite !get_values_str, Ev.
    split; [reflexivity|].
    intros _ Hv Hs. rewrite (get_values_single _ _ v Hv) in Ev.
    unfold Argparse.get_value in Ev.
    destruct (int_of_str v); [|discriminate]. injection Ev as <-.
    destruct (String.eqb_spec s "--") as [E|_]; [contradiction|].
    reflexivity.
Qed.

(** *** Option values given as separate arg strings *)

Lemma startswith_dash_false (s : string) :
  Str.startswith s "-" = false ->
  s <> "--"
  /\ forall p, Argparse.parse_optional p s = Argparse.IsArgument.
Proof.
  intros Hs. destruct s as [|c s']; [split; [discriminate | reflexivity]|].
  destruct (Ascii.eqb_spec c "-") as [->|Hne].
  - exfalso. unfold Str.startswith in Hs. cbn [String.prefix] in Hs.
    destruct (ascii_dec "-" "-") as [_|Hno]; [|congruence].
    destruct s'; discriminate Hs.
  - split; [intros E; inversion E; congruence|].
    intros p. unfold Argparse.parse_optional.
    destruct (Ascii.eqb_spec c "-") as [->|_]; [congruence | reflexivity].
Qed.

Lemma classify_argument (p : Argparse.ArgumentParser) (a : string)
    (rest : list string) :
  a <> "--" ->
  Argparse.parse_optional p a = Argparse.IsArgument ->
  Argparse.classify p (a :: rest)
  = match Argparse.classify p rest with
    | inl message => inl message
    | inr items => inr ((a, Argparse.PA) :: items)
    end.
Proof.
  intros Ha Harg. cbn [Argparse.classify].
  destruct (String.eqb_spec a "--") as [E|_]; [contradiction|].
  rewrite Harg. reflexivity.
Qed.


(** X13: the usual command line [-l VALUE -p TEXT], for a value of ASCII
    text and a text that do not start with a dash: the options are the
    integer [int()] reads in the value and the text, unchanged; a value
    [int()] refuses is reported as an invalid int. *)
Theorem separate_option_values (prog v s : string) :
  Str.isascii v = true ->
  Str.startswith v "-" = false ->
  Str.startswith s "-" = false ->
  Argparse.parse (parser prog) ["-l"; v; "-p"; s]
  = match int_of_str v with
    | Some n => Argparse.Parsed (options n s)
    | None =>
        Argparse.UsageError
          ("argument -l/--length: invalid int value: " ++ repr v)
    end.
Proof.
  intros _ Hv Hs.
  destruct (startswith_dash_false v Hv) as (Hv' & Hvarg).
  destruct (startswith_dash_false s Hs) as (Hs' & Hsarg).
  assert (Argparse.classify (parser prog) ["-l"; v; "-p"; s]
          = inr [("-l", Argparse.PO (Some length_action, "-l", None));
                 (v, Argparse.PA);
                 ("-p", Argparse.PO (Some prefix_action, "-p", None));
                 (s, Argparse.PA)]) as Hc.
  { change (Argparse.classify (parser prog) ["-l"; v; "-p"; s])
      with (match Argparse.classify (parser prog) [v; "-p"; s] with
            | inl m => inl m
            | inr items =>
                inr (("-l", Argparse.PO (Some length_action, "-l", None))
                     :: items)
            end).
    rewrite (classify_argument _ v _ Hv' (Hvarg _)).
    change (Argparse.classify (parser prog) ["-p"; s])
      with (match Argparse.classify (parser prog) [s] with
            | inl m => inl m
            | inr items =>
                inr (("-p", Argparse.PO (Some prefix_action, "-p", None))
                     :: items)
            end).
    rewrite (classify_argument _ s _ Hs' (Hsarg _)). reflexivity. }
  unfold Argparse.parse. rewrite Hc. clear Hc.
  unfold length_action. rewrite consume_store_next. fold length_action.
  rewrite (get_values_single _ _ v Hv'). unfold Argparse.get_value.
  destruct (int_of_str v) as [n|]; [|reflexivity].
  unfold prefix_action. rewrite consume_store_next. fold prefix_action.
  rewrite (get_values_single _ _ s Hs'). reflexivity.
Qed.

Lemma separate_option_values_witness :
  Str.isascii "16" = true
  /\ Str.startswith "16" "-" = false
  /\ Str.startswith "sk_" "-" = false
  /\ Argparse.parse (parser "generate_api_key.py") ["-l"; "16"; "-p"; "sk_"]
     = match int_of_str "16" with
       | Some n => Argparse.Parsed (options n "sk_")
       | None =>
           Argparse.UsageError
             ("argument -l/--length: invalid int value: " ++ repr "16")
       end
  /\ int_of_str "16" = Some 16%Z.
Proof.
  split; [reflexivity|].
  split; [reflexivity|]. split; [reflexivity|]. split; [|reflexivity].
  apply (separate_option_values "generate_api_key.py" "16" "sk_");
    reflexivity.
Defined.

(** *** Decimal numerals as lengths *)

Lemma span_digits_all (s : string) :
  forall a, Str.span_digits s = (a, EmptyString) ->
            a = s
            /\ Forall (fun c => Str.is_digit c = true) (list_ascii_of_string s).
Proof.
  induction s as [|c s IH]; intros a Hspan; simpl in Hspan.
  - injection Hspan as <-. split; [reflexivity | constructor].
  - destruct (Str.is_digit c) eqn:Ec; [|discriminate].
    destruct (Str.span_digits s) as [ds tl].
    injection Hspan as <- ->.
    destruct (IH ds eq_refl) as (-> & Hall).
    split; [reflexivity|]. simpl. constructor; assumption.
Qed.

Lemma all_digits_Forall (s : string) :
  Str.all_digits s = true ->
  s <> EmptyString
  /\ Forall (fun c => Str.is_digit c = true) (list_ascii_of_string s).
Proof.
  unfold Str.all_digits. intros Hall.
  destruct (Str.span_digits s) as [[|c a] [|x tl]] eqn:Hspan;
    try discriminate.
  destruct (span_digits_all s _ Hspan) as (<- & HF).
  split; [discriminate | exact HF].
Qed.

Lemma digit_cases (c : ascii) :
  Str.is_digit c = true ->
  c = "0"%char \/ c = "1"%char \/ c = "2"%char \/ c = "3"%char
  \/ c = "4"%char \/ c = "5"%char \/ c = "6"%char \/ c = "7"%char
  \/ c = "8"%char \/ c = "9"%char.
Proof.
  destruct c as [[] [] [] [] [] [] [] []]; vm_compute; intros Hc;
    try discriminate Hc; tauto.
Qed.

Lemma digit_not_space (c : ascii) :
  Str.is_digit c = true -> Str.is_space c = false.
Proof.
  intros Hc.
  destruct (digit_cases c Hc)
    as [->|[->|[->|[->|[->|[->|[->|[->|[->| ->]]]]]]]]]; reflexivity.
Qed.

Lemma rstrip_digits (s : string) :
  Forall (fun c => Str.is_digit c = true) (list_ascii_of_string s) ->
  Str.rstrip s = s.
Proof.
  induction s as [|c s IH]; simpl; intros Hall; [reflexivity|].
  inversion Hall as [|? ? Hc Hs]; subst.
  rewrite (IH Hs). destruct s; [|reflexivity].
  rewrite (digit_not_space c Hc). reflexivity.
Qed.

Lemma int_digits_digits (s : string) :
  Forall (fun c => Str.is_digit c = true) (list_ascii_of_string s) ->
  forall acc count after_digit,
    s <> EmptyString \/ after_digit = true ->
    int_digits s acc count after_digit
    = Some (fold_left
              (fun a c => (10 * a + Z.of_nat (nat_of_ascii c - 48))%Z)
              (list_ascii_of_string s) acc,
            (count + String.length s)%nat).
Proof.
  induction s as [|c s IH]; intros Hall acc count after_digit Hne.
  - destruct Hne as [Hne| ->]; [congruence|].
    simpl. rewrite Nat.add_0_r. reflexivity.
  - inversion Hall as [|? ? Hc Hs]; subst.
    cbn [int_digits]. rewrite Hc.
    rewrite (IH Hs _ _ true (or_intror eq_refl)).
    simpl. f_equal. f_equal. lia.
Qed.

Lemma horner_nonneg (l : list ascii) :
  forall acc,
    (0 <= acc)%Z ->
    (0 <= fold_left
            (fun a c => (10 * a + Z.of_nat (nat_of_ascii c - 48))%Z) l acc)%Z.
Proof.
  induction l as [|c l IH]; intros acc Hacc; cbn [fold_left];
    [exact Hacc|].
  apply IH. lia.
Qed.

Lemma decimal_value_nonneg (s : string) : (0 <= decimal_value s)%Z.
Proof. apply horner_nonneg. lia. Qed.

(** [int()] on a numeral and on its negation. *)
Lemma int_of_str_digits (ds : string) :
  Str.all_digits ds = true ->
  (String.length ds <= max_str_digits)%nat ->
  int_of_str ds = Some (decimal_value ds)
  /\ int_of_str ("-" ++ ds) = Some (- decimal_value ds)%Z.
Proof.
  intros Hall Hlen.
  destruct (all_digits_Forall ds Hall) as (Hne & HF).
  assert ((max_str_digits <? String.length ds)%nat = false) as Hlim.
  { apply Nat.ltb_ge. exact Hlen. }
  destruct ds as [|d ds']; [congruence|].
  inversion HF as [|? ? Hd Hds']; subst.
  pose proof (rstrip_digits (String d ds') HF) as Hr.
  pose proof (int_digits_digits (String d ds') HF 0%Z 0%nat false
                (or_introl Hne)) as Hint.
  split.
  - unfold int_of_str, Str.strip. cbn [Str.lstrip].
    rewrite (digit_not_space d Hd), Hr.
    destruct (digit_cases d Hd)
      as [->|[->|[->|[->|[->|[->|[->|[->|[->| ->]]]]]]]]];
      cbv iota; rewrite Hint; cbn [Nat.add]; rewrite Hlim;
      unfold decimal_value; f_equal; lia.
  - unfold int_of_str, Str.strip.
    change (Str.lstrip ("-" ++ String d ds')) with (String "-" (String d ds')).
    assert (Str.rstrip (String "-" (String d ds'))
            = String "-" (String d ds')) as ->.
    { cbn [Str.rstrip]. cbn [Str.rstrip] in Hr. rewrite Hr. reflexivity. }
    cbv iota. rewrite Hint. cbn [Nat.add]. rewrite Hlim.
    unfold decimal_value. f_equal; lia.
Qed.

Lemma contains_eq_digits (s : string) :
  Forall (fun c => Str.is_digit c = true) (list_ascii_of_string s) ->
  Str.contains "=" s = false.
Proof.
  induction s as [|c s IH]; simpl; intros Hall; [reflexivity|].
  inversion Hall as [|? ? Hc Hs]; subst. rewrite (IH Hs).
  destruct (digit_cases c Hc)
    as [->|[->|[->|[->|[->|[->|[->|[->|[->| ->]]]]]]]]]; reflexivity.
Qed.

Lemma decimal_like_digits (s : string) :
  Str.all_digits s = true -> Argparse.decimal_like s = true.
Proof.
  unfold Str.all_digits, Argparse.decimal_like.
  destruct (Str.span_digits s) as [[|c a] [|x tl]]; try discriminate.
  reflexivity.
Qed.

(** The parser has no option that looks like a negative number, so a
    dash followed by digits is an argument, not an option. *)
Lemma parse_optional_negative_numeral (prog ds : string) :
  Str.all_digits ds = true ->
  Argparse.parse_optional (parser prog) ("-" ++ ds) = Argparse.IsArgument.
Proof.
  intros Hall.
  destruct (all_digits_Forall ds Hall) as (Hne & HF).
  pose proof (decimal_like_digits ds Hall) as Hdec.
  destruct ds as [|d ds']; [congruence|].
  inversion HF as [|? ? Hd Hds']; subst.
  pose proof (contains_eq_digits ds' Hds') as Heq.
  assert (Argparse.negative_number_like ("-" ++ String d ds') = true) as Hneg.
  { cbn [append Argparse.negative_number_like]. rewrite Hdec. reflexivity. }
  unfold Argparse.parse_optional. cbn [append]. cbn [append] in Hneg.
  rewrite Hneg. clear Hneg Hdec Hall HF Hne.
  unfold Argparse.explicit_option.
  destruct (digit_cases d Hd)
    as [->|[->|[->|[->|[->|[->|[->|[->|[->| ->]]]]]]]]];
    cbn [Str.contains Ascii.eqb Bool.eqb orb]; rewrite Heq; reflexivity.
Qed.

(** X14: a decimal numeral of at most 4300 digits after [--length] gives
    the integer it denotes, and the numeral with a dash before it gives
    the negated integer: negative lengths get through the parser. *)
Theorem decimal_length_values (prog ds : string) :
  Str.all_digits ds = true ->
  (String.length ds <= 4300)%nat ->
  Argparse.parse (parser prog) ["--length"; ds]
  = Argparse.Parsed (options (decimal_value ds) EmptyString)
  /\ Argparse.parse (parser prog) ["--length"; "-" ++ ds]
     = Argparse.Parsed (options (- decimal_value ds) EmptyString)
  /\ (0 <= decimal_value ds)%Z.
Proof.
  intros Hall Hlen.
  destruct (int_of_str_digits ds Hall Hlen) as (Hpos & Hneg).
  destruct (all_digits_Forall ds Hall) as (Hne & HF).
  assert (forall v n,
             v <> "--" ->
             Argparse.parse_optional (parser prog) v = Argparse.IsArgument ->
             int_of_str v = Some n ->
             Argparse.parse (parser prog) ["--length"; v]
             = Argparse.Parsed (options n EmptyString)) as Hparse.
  { intros v n Hv Harg Hint. unfold Argparse.parse.
    change (Argparse.classify (parser prog) ["--length"; v])
      with (match Argparse.classify (parser prog) [v] with
            | inl m => inl m
            | inr items =>
                inr (("--length",
                      Argparse.PO (Some length_action, "--length", None))
                     :: items)
            end).
    rewrite (classify_argument _ v [] Hv Harg).
    cbn [Argparse.classify].
    unfold length_action. rewrite consume_store_next. fold length_action.
    rewrite (get_values_single _ _ v Hv). unfold Argparse.get_value.
    rewrite Hint. reflexivity. }
  split; [|split].
  - assert (Str.startswith ds "-" = false) as Hstart.
    { destruct ds as [|d ds']; [reflexivity|].
      inversion HF as [|? ? Hd Hds']; subst.
      unfold Str.startswith. cbn [String.prefix].
      destruct (ascii_dec "-" d) as [<-|_]; [discriminate Hd | reflexivity]. }
    destruct (startswith_dash_false ds Hstart) as (Hv & Harg).
    apply (Hparse ds _ Hv (Harg _) Hpos).
  - apply (Hparse ("-" ++ ds) _).
    + destruct ds as [|d ds']; [congruence|].
      inversion HF as [|? ? Hd Hds']; subst.
      intros E. injection E as E _. subst d. discriminate Hd.
    + apply parse_optional_negative_numeral. exact Hall.
    + exact Hneg.
  - apply decimal_value_nonneg.
Qed.

Lemma decimal_length_values_witness :
  Str.all_digits "0042" = true
  /\ (String.length "0042" <= 4300)%nat
  /\ decimal_value "0042" = 42%Z
  /\ Argparse.parse (parser "generate_api_key.py") ["--length"; "0042"]
     = Argparse.Parsed (options (decimal_value "0042") EmptyString)
  /\ Argparse.parse (parser "generate_api_key.py")
       ["--length"; "-" ++ "0042"]
     = Argparse.Parsed (options (- decimal_value "0042") EmptyString)
  /\ (0 <= decimal_value "0042")%Z.
Proof.
  split; [reflexivity|].
  assert (String.length "0042" <= 4300)%nat as Hlen by (simpl; lia).
  split; [exact Hlen|]. split; [reflexivity|].
  apply (decimal_length_values "generate_api_key.py" "0042" eq_refl Hlen).
Defined.
